(** * PolySpectra 3D: catalogue ingestion, colour decoding and greedy clustering

    A shallow embedding of the algorithmic core of the application:
    - [src/components/Scene.tsx]: [hexToRgb], the clustering of [renderNodes],
      the level of detail of [useFrame] and the keys of the nodes;
    - [src/components/FilamentNode.tsx]: [displayColor];
    - [src/services/geminiService.ts]: [normalize], [parseCategory],
      [findArrayInObject], [tryDirect], [tryAllOrigins], [tryCorsProxy],
      [fetchJsonRobust] and [fetchPolymakerData];
    - [src/App.tsx]: [initDataFetch] with its callbacks, [categoryCounts],
      [uniqueCategories], [visibleProductIds] and the category handlers.

    Conventions of the embedding.
    - A JavaScript string is a [string] holding its UTF-8 encoding.  Every
      pattern and literal of the sources is ASCII, so a byte that is not
      ASCII never matches one.  [toUpperCase], [toLowerCase] and [trim] are
      the methods of [String.prototype] as they act on ASCII texts
      ([is_ascii]).  A statement that depends on what they do takes the
      texts to be ASCII, or takes the method of the host as a parameter
      ([parseCategory_with]).
    - A JavaScript number that the code computes with (centroids, distances,
      thresholds) is an IEEE-754 binary64 value, [float]; a number that is an
      integer by construction (a channel, a counter, a length, a sum of
      squares of channels) is a [Z], exact in binary64 below 2^53.
    - A value decoded from JSON is a [JSValue].  Its numbers are integers
      whose decimal text [String] gives (below 2^53 in size), and no key of
      an object shadows a method of [Object.prototype]; a statement that
      depends on the text of a field takes the field to hold a primitive
      ([ascii_primitive]).
    - Code that can throw returns a [result]; callbacks, the console and the
      timer are recorded as a list of [event]s. *)

From Stdlib Require Import ZArith List Ascii String Floats Uint63 Lia DecimalString.
From Stdlib Require Import Sorting.Sorted Sorting.Permutation.
From stdpp Require Import gmap strings list.

#[local] Set Warnings "-register-all".
#[local] Arguments String.append !s1 s2 : simpl nomatch.
Local Open Scope Z_scope.

(* ===================================================================== *)
(** ** Characters and strings *)
(* ===================================================================== *)

Definition code (c : ascii) : Z := Z.of_N (N_of_ascii c).

Definition char_of_code (n : Z) : ascii := ascii_of_N (Z.to_N n).

(** [[0-9]], the class [\d]. *)
Definition is_digit (c : ascii) : bool := (48 <=? code c) && (code c <=? 57).

(** [[a-z]]. *)
Definition is_lower (c : ascii) : bool := (97 <=? code c) && (code c <=? 122).

(** [[A-Z]]. *)
Definition is_upper (c : ascii) : bool := (65 <=? code c) && (code c <=? 90).

(** [[a-f\d]] and [[0-9A-F]] under the [i] flag: the same class. *)
Definition is_hex_digit (c : ascii) : bool :=
  is_digit c || ((97 <=? code c) && (code c <=? 102))
             || ((65 <=? code c) && (code c <=? 70)).

(** The value of a hexadecimal digit, as [parseInt(_, 16)] reads it. *)
Definition hex_value (c : ascii) : Z :=
  if is_digit c then code c - 48
  else if is_lower c then code c - 87
  else code c - 55.

Definition upper_char (c : ascii) : ascii :=
  if is_lower c then char_of_code (code c - 32) else c.

Definition lower_char (c : ascii) : ascii :=
  if is_upper c then char_of_code (code c + 32) else c.

Fixpoint map_string (f : ascii -> ascii) (s : string) : string :=
  match s with
  | EmptyString => EmptyString
  | String c s' => String (f c) (map_string f s')
  end.

Fixpoint filter_string (f : ascii -> bool) (s : string) : string :=
  match s with
  | EmptyString => EmptyString
  | String c s' => if f c then String c (filter_string f s') else filter_string f s'
  end.

Fixpoint all_chars (f : ascii -> bool) (s : string) : bool :=
  match s with
  | EmptyString => true
  | String c s' => f c && all_chars f s'
  end.

(** [String.prototype.toUpperCase] and [toLowerCase] as they act on ASCII
    texts: the letters change case and nothing else changes. *)
Definition toUpperCase (s : string) : string := map_string upper_char s.
Definition toLowerCase (s : string) : string := map_string lower_char s.

Definition char_string (c : ascii) : string := String c EmptyString.

(** [s.startsWith(t)]. *)
Fixpoint startsWith (s t : string) {struct t} : bool :=
  match t, s with
  | EmptyString, _ => true
  | String c t', String d s' => Ascii.eqb c d && startsWith s' t'
  | String _ _, EmptyString => false
  end.

(** [s.includes(t)]. *)
Fixpoint includes (s t : string) : bool :=
  startsWith s t ||
  match s with
  | EmptyString => false
  | String _ s' => includes s' t
  end.

(** The ASCII white space, which [String.prototype.trim] removes: tab, line
    feed, vertical tab, form feed, carriage return and space. *)
Definition is_space (c : ascii) : bool :=
  ((9 <=? code c) && (code c <=? 13)) || (code c =? 32).

Fixpoint trimStart (s : string) : string :=
  match s with
  | EmptyString => EmptyString
  | String c s' => if is_space c then trimStart s' else s
  end.

Fixpoint trimEnd (s : string) : string :=
  match s with
  | EmptyString => EmptyString
  | String c s' =>
      match trimEnd s' with
      | EmptyString => if is_space c then EmptyString else String c EmptyString
      | t => String c t
      end
  end.

Definition trim (s : string) : string := trimEnd (trimStart s).

(** Decimal text of an integer, as [String(n)] and template literals give it
    (below 10^21 in size). *)
Definition string_of_Z (n : Z) : string := NilZero.string_of_int (Z.to_int n).

(** Every character of the text is ASCII. *)
Definition is_ascii (s : string) : bool := all_chars (fun c => code c <? 128) s.

(* ===================================================================== *)
(** ** The two hexadecimal patterns of the plotting code *)
(* ===================================================================== *)

(** [#?] at the start of a pattern. *)
Definition skip_hash (s : string) : string :=
  match s with
  | String "#" s' => s'
  | _ => s
  end.

(** One capture group [([a-f\d]{w})]: exactly [w] hexadecimal digits taken
    from the front; the group and what follows it. *)
Fixpoint take_hex (w : nat) (s : string) : option (string * string) :=
  match w with
  | O => Some (EmptyString, s)
  | S w' =>
      match s with
      | String c s' =>
          if is_hex_digit c then
            match take_hex w' s' with
            | Some (grp, rest) => Some (String c grp, rest)
            | None => None
            end
          else None
      | EmptyString => None
      end
  end.

(** [/^#?([a-f\d]{w})([a-f\d]{w})([a-f\d]{w})$/i.exec(s)]: the three groups,
    or [None] for JavaScript's [null].  [w = 1] is the shorthand pattern,
    [w = 2] the full one. *)
Definition exec_hex (w : nat) (s : string) : option (string * string * string) :=
  match take_hex w (skip_hash s) with
  | Some (g1, s1) =>
      match take_hex w s1 with
      | Some (g2, s2) =>
          match take_hex w s2 with
          | Some (g3, EmptyString) => Some (g1, g2, g3)
          | _ => None
          end
      | None => None
      end
  | None => None
  end.

(** [parseInt(s, 16)] on a string of hexadecimal digits. *)
Definition parseInt16 (s : string) : Z :=
  fold_left (fun acc c => 16 * acc + hex_value c) (list_ascii_of_string s) 0.

(** [hex.replace(/^#?([a-f\d])([a-f\d])([a-f\d])$/i, (m, r, g, b) => r+r+g+g+b+b)]:
    the whole match, "#" included, is replaced. *)
Definition expand_shorthand (hex : string) : string :=
  match exec_hex 1 hex with
  | Some (r, g, b) => r +:+ r +:+ g +:+ g +:+ b +:+ b
  | None => hex
  end.

Module Rgb.
Record t : Type := mk { r : Z; g : Z; b : Z }.
End Rgb.

(** [hexToRgb] of Scene.tsx. *)
Definition hexToRgb (hex : string) : Rgb.t :=
  let fullHex := expand_shorthand hex in
  match exec_hex 2 fullHex with
  | Some (r, g, b) => Rgb.mk (parseInt16 r) (parseInt16 g) (parseInt16 b)
  | None => Rgb.mk 0 0 0
  end.

(** The validation pattern of the normalizer, [/^#([0-9A-F]{3,8})$/i.test(hex)]. *)
Definition valid_hex (hex : string) : bool :=
  match hex with
  | String "#" digits =>
      (3 <=? String.length digits)%nat && (String.length digits <=? 8)%nat
      && all_chars is_hex_digit digits
  | _ => false
  end.

(** The inputs the plotting utility decodes: an optional "#", then three or
    six hexadecimal digits. *)
Definition hex_pattern (s : string) : bool :=
  let body := skip_hash s in
  ((String.length body =? 3)%nat || (String.length body =? 6)%nat)
  && all_chars is_hex_digit body.

(* ===================================================================== *)
(** ** JavaScript values and errors *)
(* ===================================================================== *)

(** What [JSON.parse] can return, and [undefined] for a missing property.
    The properties of an object are listed in the order [Object.values]
    enumerates them; their keys are distinct. *)
Inductive JSValue : Type :=
  | JUndefined
  | JNull
  | JBool (b : bool)
  | JNum (n : Z)
  | JStr (s : string)
  | JArr (elems : list JSValue)
  | JObj (props : list (string * JSValue)).

(** What the service can throw: an [Error] with its message, or the
    [TypeError] of calling a method that a value does not have. *)
Inductive exn : Type :=
  | Error (message : string)
  | TypeError.

Inductive result (A : Type) : Type :=
  | Ok (a : A)
  | Throw (e : exn).

Arguments Ok {A} a.
Arguments Throw {A} e.

(** Sequencing of code that can throw: [x ← m; k] runs [k] on the value of
    [m], or rethrows. *)
#[global] Instance result_bind : MBind result :=
  fun A B k m =>
    match m with
    | Ok a => k a
    | Throw e => Throw e
    end.

(** [Boolean(v)]. *)
Definition truthy (v : JSValue) : bool :=
  match v with
  | JUndefined | JNull => false
  | JBool b => b
  | JNum n => negb (n =? 0)
  | JStr s => negb (String.eqb s EmptyString)
  | JArr _ | JObj _ => true
  end.

(** [a || b]. *)
Definition or_else (a b : JSValue) : JSValue := if truthy a then a else b.

Infix "|||" := or_else (at level 50, left associativity).

Fixpoint assoc (k : string) (props : list (string * JSValue)) : JSValue :=
  match props with
  | [] => JUndefined
  | (k', v) :: rest => if String.eqb k k' then v else assoc k rest
  end.

(** [v.k] for the property names the service reads.  None of them is a
    property of an array or of a primitive's prototype, except [link] on a
    string, which the service can read only in a record that has no hex
    field and therefore emits nothing. *)
Definition get (v : JSValue) (k : string) : JSValue :=
  match v with
  | JObj props => assoc k props
  | _ => JUndefined
  end.

(** [Array.isArray(v)], with the array. *)
Definition as_array (v : JSValue) : option (list JSValue) :=
  match v with
  | JArr l => Some l
  | _ => None
  end.

(** [typeof v === 'object' && v !== null]. *)
Definition is_object (v : JSValue) : bool :=
  match v with
  | JArr _ | JObj _ => true
  | _ => false
  end.

Fixpoint join (sep : string) (l : list string) : string :=
  match l with
  | [] => EmptyString
  | [s] => s
  | s :: rest => s +:+ sep +:+ join sep rest
  end.

(** [String(v)], which is also [v.toString()] where [v] is not nullish: an
    array joins its elements with commas, [null] and [undefined] elements
    giving the empty string; a plain object gives "[object Object]".  On
    the primitives of [ascii_primitive] this is the text the code gets; a
    statement about the text of a field takes the field to hold one. *)
Fixpoint toStr (v : JSValue) : string :=
  match v with
  | JUndefined => "undefined"
  | JNull => "null"
  | JBool true => "true"
  | JBool false => "false"
  | JNum n => string_of_Z n
  | JStr s => s
  | JArr elems =>
      join ","
        (List.map (fun e => match e with
                            | JUndefined | JNull => EmptyString
                            | _ => toStr e
                            end) elems)
  | JObj _ => "[object Object]"
  end.

(** [v.toUpperCase()] and [v.toLowerCase()]: only a string has the method.
    [convert] is the method of the host. *)
Definition call_case (convert : string -> string) (v : JSValue) : result string :=
  match v with
  | JStr s => Ok (convert s)
  | _ => Throw TypeError
  end.

Definition call_toLowerCase (v : JSValue) : result string :=
  match v with
  | JStr s => Ok (toLowerCase s)
  | _ => Throw TypeError
  end.

(* ===================================================================== *)
(** ** geminiService.ts: parsing helpers *)
(* ===================================================================== *)

(** [normalize]: [str.toLowerCase().replace(/[^a-z0-9]/g, '')]. *)
Definition normalize (str : JSValue) : result string :=
  lowered ← call_toLowerCase str;
  Ok (filter_string (fun c => is_lower c || is_digit c) lowered).

(** [parseCategory], for a host whose [String.prototype.toUpperCase] is
    [upper]. *)
Definition parseCategory_with (upper : string -> string) (val productName : JSValue)
  : result string :=
  v ← call_case upper (val ||| JStr "");
  n ← call_case upper (productName ||| JStr "");
  Ok (if includes v "PLA" || includes n "PLA" then "PLA"
      else if includes v "PETG" || includes n "PETG" then "PETG"
      else if includes v "ABS" || includes n "ABS" then "ABS"
      else if includes v "ASA" || includes n "ASA" then "ASA"
      else if includes v "TPU" || includes v "FLEX" || includes n "TPU" then "TPU"
      else if includes v "NYLON" || includes v "PA6" || includes v "PA12"
              || includes n "NYLON" then "Nylon"
      else if includes v "PC" || includes n "PC" then "PC"
      else if includes v "PVB" || includes n "PVB" then "PVB"
      else if includes v "WOOD" || includes n "WOOD" then "Wood"
      else "Other")%string.

(** [parseCategory] on ASCII texts. *)
Definition parseCategory (val productName : JSValue) : result string :=
  parseCategory_with toUpperCase val productName.

(** [findArrayInObject]; [None] is [null]. *)
Definition findArrayInObject (obj : JSValue) : option (list JSValue) :=
  if negb (truthy obj) then None
  else
    match obj with
    | JArr l => Some l
    | JObj props =>
        match as_array (get obj "data") with
        | Some l => Some l
        | None =>
        match as_array (get obj "products") with
        | Some l => Some l
        | None =>
        match as_array (get obj "items") with
        | Some l => Some l
        | None =>
            let values := List.map snd props in
            match values with
            | first :: _ =>
                if is_object first
                   && truthy (get first "product_name" ||| get first "name"
                              ||| get first "hex_code" ||| get first "hex"
                              ||| get first "color_name")
                then Some values
                else None
            | [] => None
            end
        end end end
    | _ => None
    end.

(* ===================================================================== *)
(** ** geminiService.ts: acquisition and ingestion *)
(* ===================================================================== *)

(** The [Product] the service hands to [onProductFound].  [product], [name]
    and [url] are copied from the record as they are found; [id], [category]
    and [hex] are strings the service builds; [td] is [string | null]. *)
Module Product.
Record t : Type := mk {
  id : string;
  product : JSValue;
  name : JSValue;
  category : string;
  hex : string;
  url : JSValue;
  td : option string
}.
End Product.

(** What a run does that its caller can observe, in order. *)
Inductive event : Type :=
  | ProductFound (p : Product.t)                (* onProductFound(p) *)
  | Progress (status : string) (count : Z)      (* onProgress(status, count) *)
  | Yield                                       (* await new Promise(r => setTimeout(r, 0)) *)
  | Log (text : string).                        (* console.log(text) *)

(** What each acquisition strategy does when it is awaited: it resolves with
    a decoded value or rejects. *)
Record Network : Type := {
  tryAllOrigins : result JSValue;
  tryDirect : result JSValue;
  tryCorsProxy : result JSValue
}.

(** [fetchJsonRobust]: the strategies in their fixed order, the first that
    resolves wins. *)
Definition fetchJsonRobust (net : Network) : list event * result JSValue :=
  match tryAllOrigins net with
  | Ok v => ([], Ok v)
  | Throw _ =>
      match tryDirect net with
      | Ok v => ([Log "AllOrigins failed, trying Direct..."], Ok v)
      | Throw _ =>
          match tryCorsProxy net with
          | Ok v => ([Log "AllOrigins failed, trying Direct...";
                      Log "Direct failed, trying CORSProxy..."], Ok v)
          | Throw _ =>
              ([Log "AllOrigins failed, trying Direct...";
                Log "Direct failed, trying CORSProxy...";
                Log "CORSProxy failed."],
               Throw (Error "Unable to connect to Polymaker API via any proxy."))
          end
      end
  end.

(** The variables the record loop updates. *)
Record LoopState : Type := {
  count : Z;
  processedIds : gset string
}.

(** [x !== undefined && x !== null && x !== ""]. *)
Definition present (x : JSValue) : bool :=
  match x with
  | JUndefined | JNull => false
  | JStr s => negb (String.eqb s EmptyString)
  | _ => true
  end.

(** Lines 161-168: [td], with the text "null" cleaned up. *)
Definition transmission (item : JSValue) : option string :=
  let td :=
    if present (get item "transmission_distance")
    then Some (toStr (get item "transmission_distance"))
    else if present (get item "td") then Some (toStr (get item "td"))
    else None in
  match td with
  | Some t => if String.eqb t "null" then None else Some t
  | None => None
  end.

(** Lines 172-174: [hex] before its test, the empty string standing for
    [null] (both are falsy). *)
Definition trimmed_hex (item : JSValue) : string :=
  let rawHex := get item "hex_code" ||| get item "hex" ||| get item "hexcodes"
                ||| get item "color_hex" ||| get item "color_code" ||| get item "value" in
  if truthy rawHex then trim (toStr rawHex) else EmptyString.

(** Line 177. *)
Definition with_hash (hex : string) : string :=
  if startsWith hex "#" then hex else "#" +:+ hex.

(** Line 182: the id of the source, or the one derived from the names. *)
Definition make_id (item product name : JSValue) : result string :=
  if truthy (get item "id") then Ok (toStr (get item "id"))
  else p ← normalize product; c ← normalize name; Ok (p +:+ "-" +:+ c).

(** Lines 155-182 of the loop body, for a truthy [item]: field mapping,
    transmission distance, hex handling and the id.  [Ok None] when the
    record has no hex or an invalid one. *)
Definition resolve (item : JSValue) : result (option Product.t) :=
  let product := get item "product_name" ||| get item "product" ||| get item "title"
                 ||| JStr "Unknown Product" in
  let name := get item "color_name" ||| get item "name" ||| get item "color"
              ||| JStr "Unknown Color" in
  let rawCategoryField := get item "material" ||| get item "material_type"
                          ||| get item "category" ||| get item "type" ||| JStr "" in
  category ← parseCategory rawCategoryField product;
  let url := get item "product_url" ||| get item "url" ||| get item "link"
             ||| JStr "https://us.polymaker.com" in
  let td := transmission item in
  let hex := trimmed_hex item in
  if String.eqb hex EmptyString then Ok None
  else
    let hex := with_hash hex in
    if valid_hex hex then
      id ← make_id item product name;
      Ok (Some (Product.mk id product name category hex url td))
    else Ok None.

(** Lines 184-197: the deduplication and the emission. *)
Definition emit (st : LoopState) (found : option Product.t) : LoopState * list event :=
  match found with
  | Some p =>
      if bool_decide (Product.id p ∈ processedIds st) then (st, [])
      else ({| count := count st + 1;
               processedIds := {[Product.id p]} ∪ processedIds st |},
            [ProductFound p])
  | None => (st, [])
  end.

(** Lines 201-204: the progress report and the yield. *)
Definition report (st : LoopState) : list event :=
  if count st mod 20 =? 0
  then [Progress ("Loaded " +:+ string_of_Z (count st) +:+ " colors...") (count st); Yield]
  else [].

(** One iteration of [for (const item of items)]. *)
Definition body (st : LoopState) (item : JSValue) : result (LoopState * list event) :=
  if negb (truthy item) then Ok (st, [])          (* continue *)
  else
    found ← resolve item;
    let '(st', evs) := emit st found in
    Ok (st', evs ++ report st').

(** The loop: the events of the iterations that completed, and the final
    state or what the first failing iteration threw. *)
Fixpoint loop (items : list JSValue) (st : LoopState) : list event * result LoopState :=
  match items with
  | [] => ([], Ok st)
  | item :: rest =>
      match body st item with
      | Throw e => ([], Throw e)
      | Ok (st', evs) =>
          let '(evs', r) := loop rest st' in (evs ++ evs', r)
      end
  end.

Definition no_list : exn :=
  Error "Connected to API but found no product list in response.".
Definition no_valid : exn :=
  Error "API response parsed but no valid hex codes were found.".
Definition unreachable : exn :=
  Error "Unable to connect to Polymaker API via any proxy.".

(** [fetchPolymakerData]: everything the run does, and how it ends. *)
Definition fetchPolymakerData (net : Network) : list event * result unit :=
  let start := [Progress "Connecting to API..." 0] in
  match fetchJsonRobust net with
  | (logs, Throw e) => (start ++ logs, Throw e)
  | (logs, Ok rawData) =>
      match findArrayInObject rawData with
      | None | Some [] => (start ++ logs, Throw no_list)
      | Some items =>
          let processing :=
            [Progress ("Processing " +:+ string_of_Z (Z.of_nat (length items))
                       +:+ " items...") 0] in
          match loop items {| count := 0; processedIds := ∅ |} with
          | (evs, Throw e) => (start ++ logs ++ processing ++ evs, Throw e)
          | (evs, Ok st) =>
              if count st =? 0
              then (start ++ logs ++ processing ++ evs, Throw no_valid)
              else (start ++ logs ++ processing ++ evs ++ [Progress "Done!" (count st)],
                    Ok ())
          end
      end
  end.

(** The entities a trace handed to [onProductFound], in order. *)
Definition emitted (evs : list event) : list Product.t :=
  omap (fun e => match e with ProductFound p => Some p | _ => None end) evs.

(** The counts a trace handed to [onProgress], in order. *)
Definition progress_counts (evs : list event) : list Z :=
  omap (fun e => match e with Progress _ n => Some n | _ => None end) evs.

(* ===================================================================== *)
(** ** Scene.tsx: the greedy clustering of [renderNodes] *)
(* ===================================================================== *)

(** An integer as a JavaScript number (exact below 2^53). *)
Definition number_of_Z (n : Z) : float := PrimFloat.of_uint63 (Uint63.of_Z n).

(** The intermediate structure: a product with its position. *)
Module Item.
Record t : Type := mk { product : Product.t; x : float; y : float; z : float }.
End Item.

(** An open cluster: its members in assignment order and its centre. *)
Module Cluster.
Record t : Type := mk { products : list Product.t; x : float; y : float; z : float }.
End Cluster.

Definition item_of (p : Product.t) : Item.t :=
  let rgb := hexToRgb (Product.hex p) in
  Item.mk p (number_of_Z (Rgb.r rgb)) (number_of_Z (Rgb.g rgb)) (number_of_Z (Rgb.b rgb)).

(** [Math.sqrt(dx * dx + dy * dy + dz * dz)] from a cluster centre to an item. *)
Definition dist (cluster : Cluster.t) (item : Item.t) : float :=
  let dx := (Cluster.x cluster - Item.x item)%float in
  let dy := (Cluster.y cluster - Item.y item)%float in
  let dz := (Cluster.z cluster - Item.z item)%float in
  PrimFloat.sqrt (dx * dx + dy * dy + dz * dz)%float.

(** Lines 201-206: the item joins the cluster and the centre is re-averaged. *)
Definition absorb (cluster : Cluster.t) (item : Item.t) : Cluster.t :=
  let products := Cluster.products cluster ++ [Item.product item] in
  let n := number_of_Z (Z.of_nat (length products)) in
  Cluster.mk products
    (((Cluster.x cluster * (n - 1)) + Item.x item) / n)%float
    (((Cluster.y cluster * (n - 1)) + Item.y item) / n)%float
    (((Cluster.z cluster * (n - 1)) + Item.z item) / n)%float.

(** Lines 213-221: a new cluster at the item. *)
Definition singleton (item : Item.t) : Cluster.t :=
  Cluster.mk [Item.product item] (Item.x item) (Item.y item) (Item.z item).

(** The inner loop, lines 193-211: the clusters after the item joined one of
    them, or [None] when the loop ends with [foundCluster] still false. *)
Fixpoint fit (THRESHOLD : float) (item : Item.t) (clusters : list Cluster.t)
  : option (list Cluster.t) :=
  match clusters with
  | [] => None
  | cluster :: rest =>
      if (dist cluster item <? THRESHOLD)%float
      then Some (absorb cluster item :: rest)           (* break *)
      else option_map (cons cluster) (fit THRESHOLD item rest)
  end.

(** One iteration of the outer loop, lines 189-222. *)
Definition place (THRESHOLD : float) (clusters : list Cluster.t) (item : Item.t)
  : list Cluster.t :=
  match fit THRESHOLD item clusters with
  | Some clusters' => clusters'
  | None => clusters ++ [singleton item]
  end.

Section Clustering.

(** [String.prototype.localeCompare], which the host provides: negative,
    zero or positive. *)
Variable localeCompare : string -> string -> Z.

(** The comparator of line 187. *)
Definition by_id (a b : Item.t) : Z :=
  localeCompare (Product.id (Item.product a)) (Product.id (Item.product b)).

(** [Array.prototype.sort] is stable: an item goes in front of the first
    item that does not precede it. *)
Fixpoint insert_item (a : Item.t) (sorted : list Item.t) : list Item.t :=
  match sorted with
  | [] => [a]
  | b :: rest =>
      if by_id a b <=? 0 then a :: b :: rest else b :: insert_item a rest
  end.

Definition sort (items : list Item.t) : list Item.t :=
  foldr insert_item [] items.

(** [renderNodes]. *)
Definition renderNodes (allProducts : list Product.t)
    (visibleProductIds : gset string) (clusterThreshold : float)
  : list Cluster.t :=
  let visibleProducts :=
    List.filter (fun p => bool_decide (Product.id p ∈ visibleProductIds)) allProducts in
  let items := List.map item_of visibleProducts in
  fold_left (place clusterThreshold) (sort items) [].

End Clustering.

(** The comparison by code unit.  On ids made of digits, lower-case ASCII
    letters and "-" (the ids the service derives from names, and numeric
    ids) it is the order of [localeCompare] in the root collation. *)
Definition compare_units (a b : string) : Z :=
  match String.compare a b with
  | Lt => -1
  | Eq => 0
  | Gt => 1
  end.

(* ===================================================================== *)
(** ** FilamentNode.tsx: the display colour of a node *)
(* ===================================================================== *)

(** The value of [Math.round]: an integer, [NaN], or an infinity. *)
Inductive rounded : Type :=
  | Int (n : Z)
  | NaN
  | Infinity (negative : bool).

(** [Math.round]: the nearest integer, a tie going up.  A finite binary64
    value is [n * 2^e] for the integers [n] and [e] of its decomposition. *)
Definition Math_round (x : float) : rounded :=
  match Prim2SF x with
  | S754_zero _ => Int 0
  | S754_infinity s => Infinity s
  | S754_nan => NaN
  | S754_finite s m e =>
      let n := if s then Z.neg m else Z.pos m in
      Int (if 0 <=? e then n * 2 ^ e else (2 * n + 2 ^ (- e)) / 2 ^ (1 - e))
  end.

(** The text a template literal gives a rounded number. *)
Definition rounded_to_string (v : rounded) : string :=
  match v with
  | Int n => string_of_Z n
  | NaN => "NaN"
  | Infinity false => "Infinity"
  | Infinity true => "-Infinity"
  end.

(** The accumulation of lines 37-50: a product whose hex the pattern does
    not decode adds nothing. *)
Definition add_squares (sums : Z * Z * Z) (p : Product.t) : Z * Z * Z :=
  let '(rSum, gSum, bSum) := sums in
  let fullHex := expand_shorthand (Product.hex p) in
  match exec_hex 2 fullHex with
  | Some (r, g, b) =>
      let r := parseInt16 r in
      let g := parseInt16 g in
      let b := parseInt16 b in
      (rSum + r * r, gSum + g * g, bSum + b * b)
  | None => (rSum, gSum, bSum)
  end.

(** [Math.round(Math.sqrt(sum / count))]. *)
Definition root_mean (sum : Z) (count : nat) : rounded :=
  Math_round (PrimFloat.sqrt (number_of_Z sum / number_of_Z (Z.of_nat count))%float).

(** [displayColor]. *)
Definition displayColor (products : list Product.t) : string :=
  let count := length products in
  match products with
  | [p] => Product.hex p                      (* count === 1: products[0].hex *)
  | _ =>
      let '(rSum, gSum, bSum) := fold_left add_squares products (0, 0, 0) in
      let r := root_mean rSum count in
      let g := root_mean gSum count in
      let b := root_mean bSum count in
      "rgb(" +:+ rounded_to_string r +:+ "," +:+ rounded_to_string g +:+ ","
             +:+ rounded_to_string b +:+ ")"
  end.

(* ===================================================================== *)
(** ** Vocabulary of the statements *)
(* ===================================================================== *)

(** The number of hexadecimal digits of a colour string. *)
Definition hex_digit_count (hex : string) : nat := String.length (skip_hash hex).

(** The test of line 200: the item is within the threshold of the cluster. *)
Definition within (THRESHOLD : float) (item : Item.t) (cluster : Cluster.t) : bool :=
  (dist cluster item <? THRESHOLD)%float.

(** All the products of a list of clusters, cluster by cluster. *)
Definition members (clusters : list Cluster.t) : list Product.t :=
  flat_map Cluster.products clusters.

(** The visible products, in the order they are supplied. *)
Definition visible (visibleProductIds : gset string) (allProducts : list Product.t)
  : list Product.t :=
  List.filter (fun p => bool_decide (Product.id p ∈ visibleProductIds)) allProducts.

(** A product with the given id and hex, the other fields fixed. *)
Definition entry (id hex : string) : Product.t :=
  Product.mk id (JStr "PolyLite PLA") (JStr "Sample") "PLA" hex
    (JStr "https://us.polymaker.com") None.

(** The order the sort establishes: [a] does not come after [b]. *)
Definition precedes (localeCompare : string -> string -> Z) (a b : Item.t) : Prop :=
  by_id localeCompare a b <= 0.

(** What ECMA-262 requires of [localeCompare]: a consistent comparator.  The
    signs of [cmp a b] and [cmp b a] are opposite, and not coming after is
    transitive. *)
Definition consistent (cmp : string -> string -> Z) : Prop :=
  (forall a b, cmp a b < 0 <-> 0 < cmp b a)
  /\ (forall a b c, cmp a b <= 0 -> cmp b c <= 0 -> cmp a c <= 0).

(** The collation tells the ids of the products apart: two ids that compare
    equal are the same string. *)
Definition separates (cmp : string -> string -> Z) (ps : list Product.t) : Prop :=
  forall p q, In p ps -> In q ps ->
    cmp (Product.id p) (Product.id q) = 0 -> Product.id p = Product.id q.

(** The ids of each cluster, in order. *)
Definition member_ids (clusters : list Cluster.t) : list (list string) :=
  List.map (fun c => List.map Product.id (Cluster.products c)) clusters.

(** The scenario of the specification: three colours on the grey axis. *)
Definition black : Product.t := entry "a" "#000000".
Definition near_black : Product.t := entry "b" "#020202".
Definition light_grey : Product.t := entry "c" "#c8c8c8".
Definition abc : gset string := {["a"%string]} ∪ {["b"%string]} ∪ {["c"%string]}.

(** Three reds: the third is nearer to the second cluster but within the
    threshold of the first. *)
Definition red_0 : Product.t := entry "a" "#000000".
Definition red_20 : Product.t := entry "b" "#140000".
Definition red_12 : Product.t := entry "c" "#0c0000".

(** U+00E9 in UTF-8, and its canonical equivalent U+0065 U+0301. *)
Definition e_acute : string := String "195" (String "169" EmptyString).
Definition e_then_acute : string := String "e" (String "204" (String "129" EmptyString)).

(** Canonical composition of "e" followed by a combining acute accent. *)
Fixpoint compose_acute (s : string) : string :=
  match s with
  | String "e" (String "204" (String "129" rest)) =>
      String "195" (String "169" (compose_acute rest))
  | String c rest => String c (compose_acute rest)
  | EmptyString => EmptyString
  end.

(** A collation that honours that canonical equivalence, as ECMA-262
    requires [localeCompare] to: canonically equivalent strings compare
    equal. *)
Definition collate (a b : string) : Z :=
  compare_units (compose_acute a) (compose_acute b).

Definition accented_0 : Product.t := entry e_acute "#000000".
Definition accented_20 : Product.t := entry e_then_acute "#140000".
Definition plain_10 : Product.t := entry "a" "#0a0000".
Definition accented_ids : gset string := {[e_acute]} ∪ {[e_then_acute]} ∪ {["a"%string]}.

(** The channels of a product, as [hexToRgb] decodes its hex. *)
Definition red (p : Product.t) : Z := Rgb.r (hexToRgb (Product.hex p)).
Definition green (p : Product.t) : Z := Rgb.g (hexToRgb (Product.hex p)).
Definition blue (p : Product.t) : Z := Rgb.b (hexToRgb (Product.hex p)).

(** The sum of the squares of one channel over the members. *)
Definition sum_squares (channel : Product.t -> Z) (ps : list Product.t) : Z :=
  fold_right (fun p acc => channel p * channel p + acc) 0 ps.

(** The root mean square of one channel, rounded: the square root of the
    mean of the squares, to the nearest integer. *)
Definition root_mean_square (channel : Product.t -> Z) (ps : list Product.t) : rounded :=
  Math_round
    (PrimFloat.sqrt (number_of_Z (sum_squares channel ps)
                     / number_of_Z (Z.of_nat (length ps)))%float).

(** The CSS text of three channels. *)
Definition rgb_text (r g b : rounded) : string :=
  "rgb(" +:+ rounded_to_string r +:+ "," +:+ rounded_to_string g +:+ ","
         +:+ rounded_to_string b +:+ ")".

(** The classifier as a table: a category, the substrings looked for in the
    category field, and those looked for in the product name. *)
Definition rules : list (string * list string * list string) :=
  [ ("PLA", ["PLA"], ["PLA"]);
    ("PETG", ["PETG"], ["PETG"]);
    ("ABS", ["ABS"], ["ABS"]);
    ("ASA", ["ASA"], ["ASA"]);
    ("TPU", ["TPU"; "FLEX"], ["TPU"]);
    ("Nylon", ["NYLON"; "PA6"; "PA12"], ["NYLON"]);
    ("PC", ["PC"], ["PC"]);
    ("PVB", ["PVB"], ["PVB"]);
    ("Wood", ["WOOD"], ["WOOD"]) ]%string.

(** The first rule of the table that matches, "Other" when none does. *)
Fixpoint first_match (table : list (string * list string * list string))
    (v n : string) : string :=
  match table with
  | [] => "Other"
  | (category, in_field, in_name) :: rest =>
      if existsb (includes v) in_field || existsb (includes n) in_name
      then category
      else first_match rest v n
  end.

Definition categories : list string :=
  ["PLA"; "PETG"; "ABS"; "ASA"; "TPU"; "Nylon"; "PC"; "PVB"; "Wood"; "Other"]%string.

(** The keys by which a value looks like a product. *)
Definition product_keys : list string :=
  ["product_name"; "name"; "hex_code"; "hex"; "color_name"]%string.

(** The value is an object with the key among its own properties. *)
Definition has_key (v : JSValue) (k : string) : bool :=
  match v with
  | JObj props => existsb (fun kv => String.eqb k kv.1) props
  | _ => false
  end.

(** A dictionary whose first record has its name and hex fields, empty. *)
Definition unnamed_first : JSValue :=
  JObj [("0", JObj [("name", JStr ""); ("hex", JNull)]);
        ("1", JObj [("name", JStr "Blue"); ("hex", JStr "#0000FF")])]%string.

(** Two records, and the three shapes in which a response can carry them. *)
Definition record_0 : JSValue :=
  JObj [("name", JStr "Red"); ("hex", JStr "#FF0000")]%string.
Definition record_1 : JSValue :=
  JObj [("name", JStr "Blue"); ("hex", JStr "#0000FF")]%string.
Definition wrapped : JSValue := JObj [("data"%string, JArr [record_0; record_1])].
Definition bare : JSValue := JArr [record_0; record_1].
Definition keyed : JSValue := JObj [("0"%string, record_0); ("1"%string, record_1)].

(** The state in which the record loop starts. *)
Definition initial : LoopState := {| count := 0; processedIds := ∅ |}.

(** The entity a record normalizes to, when it is a valid record. *)
Definition entity_of (item : JSValue) : option Product.t :=
  if truthy item then
    match resolve item with
    | Ok found => found
    | Throw _ => None
    end
  else None.

(** Processing the record throws. *)
Definition raises (item : JSValue) : bool :=
  truthy item && match resolve item with Throw _ => true | Ok _ => false end.

(** The products of a list that carry a given id. *)
Definition with_id (id : string) (ps : list Product.t) : list Product.t :=
  List.filter (fun q => String.eqb (Product.id q) id) ps.

(** The fields whose values the service takes for text. *)
Definition text_keys : list string :=
  ["product_name"; "product"; "title"; "color_name"; "name"; "color";
   "material"; "material_type"; "category"; "type"]%string.

(** A string, or a value that [||] skips. *)
Definition text_or_falsy (v : JSValue) : bool :=
  match v with
  | JStr _ => true
  | _ => negb (truthy v)
  end.

(** A record whose text fields, where present, hold strings. *)
Definition well_typed (item : JSValue) : Prop :=
  forall k, In k text_keys -> text_or_falsy (get item k) = true.

(** The fields of a record that the loop turns into a text with [String] or
    [toString]: the id, the transmission distance and the hex. *)
Definition coerced_keys : list string :=
  ["id"; "transmission_distance"; "td"; "hex_code"; "hex"; "hexcodes"; "color_hex";
   "color_code"; "value"]%string.

(** A value on which the string methods and coercions of the loop are the
    ones of this development: nothing, a boolean, an integer that binary64
    holds exactly, or an ASCII text; no array and no object. *)
Definition ascii_primitive (v : JSValue) : bool :=
  match v with
  | JStr s => is_ascii s
  | JNum n => Z.abs n <? 2 ^ 53
  | JArr _ | JObj _ => false
  | JUndefined | JNull | JBool _ => true
  end.

(** A record whose name and category fields hold ASCII texts or nothing
    usable, and whose id, transmission distance and hex fields hold
    primitives. *)
Definition plain (item : JSValue) : Prop :=
  (forall k, In k text_keys ->
     text_or_falsy (get item k) = true /\ ascii_primitive (get item k) = true)
  /\ (forall k, In k coerced_keys -> ascii_primitive (get item k) = true).

(** A response that only the direct strategy obtains. *)
Definition direct_only (response : JSValue) : Network :=
  {| tryAllOrigins := Throw (Error "Status 500");
     tryDirect := Ok response;
     tryCorsProxy := Throw (Error "Status 500") |}.

(** Sample records: one valid, one with no valid hex, one whose category is
    a number. *)
Definition red_record : JSValue :=
  JObj [("id", JNum 1); ("name", JStr "Red"); ("hex", JStr "#FF0000")]%string.
Definition red_again : JSValue :=
  JObj [("id", JStr "1"); ("name", JStr "Crimson"); ("hex", JStr "#DC143C")]%string.
Definition colourless_record : JSValue :=
  JObj [("id", JNum 7); ("name", JStr "Mystery"); ("hex", JStr "n/a")]%string.
Definition numbered_category : JSValue :=
  JObj [("id", JNum 2); ("name", JStr "Blue"); ("hex", JStr "#0000FF");
        ("category", JNum 3)]%string.
Definition blue_record : JSValue :=
  JObj [("id", JNum 3); ("name", JStr "Blue"); ("hex", JStr "#0000FF")]%string.

(** The response of the acquisition scenario of the specification. *)
Definition scenario_response : JSValue :=
  JObj [("products",
         JArr [JObj [("id", JStr "1"); ("hex", JStr "#FF0000");
                     ("product", JStr "X"); ("color", JStr "Red")]])]%string.

(** A valid record with a numeric id, and the first [n] of them. *)
Definition numbered (i : nat) : JSValue :=
  JObj [("id", JNum (Z.of_nat i)); ("hex", JStr "#FF0000")]%string.
Definition first_records (n : nat) : list JSValue := List.map numbered (seq 1 n).

(** The text of the progress report of the loop. *)
Definition loaded (n : Z) : string := "Loaded " +:+ string_of_Z n +:+ " colors...".

(* ===================================================================== *)
(** ** geminiService.ts: the record loop, further vocabulary *)
(* ===================================================================== *)

(** The ids of a list of products, in order. *)
Definition ids (ps : list Product.t) : list string := List.map Product.id ps.

(** [/[^a-z0-9]/] does not match the character. *)
Definition is_alnum (c : ascii) : bool := is_lower c || is_digit c.

(** What every entity of the service satisfies. *)
Definition well_formed (p : Product.t) : Prop :=
  valid_hex (Product.hex p) = true
  /\ In (Product.category p) categories
  /\ (exists s, Product.product p = JStr s)
  /\ truthy (Product.name p) = true
  /\ truthy (Product.url p) = true
  /\ Product.td p <> Some "null"%string.


(* ===================================================================== *)
(** ** geminiService.ts: the three acquisition strategies *)
(* ===================================================================== *)

(** What [fetchWithTimeout] resolves with: the [ok] flag, the status and the
    decoded body of a [Response]. *)
Module Response.
Record t : Type := mk { ok : bool; status : Z; text : string }.
End Response.

(** [text.indexOf(c)] for a one-character string [c]: -1 when it is absent. *)
Fixpoint indexOf (text : string) (c : ascii) : Z :=
  match text with
  | EmptyString => -1
  | String d rest =>
      if Ascii.eqb d c then 0
      else let i := indexOf rest c in if i =? -1 then -1 else i + 1
  end.

Fixpoint drop_chars (n : nat) (text : string) : string :=
  match n, text with
  | O, _ => text
  | S _, EmptyString => EmptyString
  | S n', String _ rest => drop_chars n' rest
  end.

(** [text.substring(start)]. *)
Definition substring_from (text : string) (start : Z) : string :=
  drop_chars (Z.to_nat start) text.

(** [v.k] on a value that may be [null]: reading a property of [null] or
    [undefined] throws. *)
Definition member (v : JSValue) (k : string) : result JSValue :=
  match v with
  | JUndefined | JNull => Throw TypeError
  | _ => Ok (get v k)
  end.

Module Strategy.
Section Strategies.

(** [JSON.parse], which the host provides: the value, or the [SyntaxError]
    it throws.  [res.json()] is [JSON.parse] of the decoded body. *)
Variable JSON_parse : string -> result JSValue.

(** [if (!res.ok) throw new Error(`Status ${res.status}`)]. *)
Definition checked (fetched : result Response.t) : result Response.t :=
  res ← fetched;
  if negb (Response.ok res)
  then Throw (Error ("Status " +:+ string_of_Z (Response.status res)))
  else Ok res.

(** [tryDirect], of the outcome of its [fetchWithTimeout]. *)
Definition tryDirect (fetched : result Response.t) : result JSValue :=
  res ← checked fetched;
  let text := Response.text res in
  let jsonStart := indexOf text "[" in
  let objStart := indexOf text "{" in
  let start :=
    if negb (jsonStart =? -1) && negb (objStart =? -1) then Z.min jsonStart objStart
    else if negb (jsonStart =? -1) then jsonStart
    else if negb (objStart =? -1) then objStart
    else -1 in
  if negb (start =? -1) then JSON_parse (substring_from text start)
  else JSON_parse text.

(** [tryAllOrigins]: the wrapper's [contents], decoded when it can be. *)
Definition tryAllOrigins (fetched : result Response.t) : result JSValue :=
  res ← checked fetched;
  data ← JSON_parse (Response.text res);
  contents ← member data "contents";
  if truthy contents then
    match JSON_parse (toStr contents) with
    | Ok v => Ok v
    | Throw _ => Ok contents                   (* catch { return data.contents } *)
    end
  else Throw (Error "No contents in AllOrigins response").

(** [tryCorsProxy]. *)
Definition tryCorsProxy (fetched : result Response.t) : result JSValue :=
  res ← checked fetched;
  JSON_parse (Response.text res).

(** The three strategies, each with the outcome of its own request. *)
Definition network (allOrigins direct corsProxy : result Response.t) : Network :=
  Build_Network (tryAllOrigins allOrigins) (tryDirect direct) (tryCorsProxy corsProxy).

End Strategies.
End Strategy.

(** "[" or "{". *)
Definition is_bracket (c : ascii) : bool := Ascii.eqb c "[" || Ascii.eqb c "{".

(** A decoder that knows two texts, for the examples. *)
Definition decode_sample (text : string) : result JSValue :=
  if String.eqb text "[]" then Ok (JArr [])
  else if String.eqb text "{}" then Ok (JObj [])
  else Throw (Error "Unexpected token").

(** The double quote, and a wrapper of the first strategy whose [contents]
    is no JSON. *)
Definition quote : string := String (ascii_of_nat 34) EmptyString.
Definition busy_wrapper : string :=
  "{" +:+ quote +:+ "contents" +:+ quote +:+ ":" +:+ quote +:+ "Too many requests"
      +:+ quote +:+ "}".

(** A decoder that knows the wrapper too. *)
Definition decode_wrapper (text : string) : result JSValue :=
  if String.eqb text busy_wrapper
  then Ok (JObj [("contents"%string, JStr "Too many requests")])
  else decode_sample text.

(* ===================================================================== *)
(** ** App.tsx: the catalogue, the category filter and the search *)
(* ===================================================================== *)

(** [l.includes(c)] on an array of strings. *)
Definition contains (l : list string) (c : string) : bool := existsb (String.eqb c) l.

(** [Array.prototype.sort] without a comparator: the order of the code
    units, which on ASCII texts such as the categories of the service is the
    order of the bytes. *)
Fixpoint insert_string (a : string) (sorted : list string) : list string :=
  match sorted with
  | [] => [a]
  | b :: rest =>
      if compare_units a b <=? 0 then a :: b :: rest else b :: insert_string a rest
  end.

Definition sort_strings (l : list string) : list string := foldr insert_string [] l.

Module App.

(** The state that the catalogue and its filters use. *)
Record state : Type := mk {
  products : list Product.t;
  selectedCategories : list string;
  progressText : string
}.

(** The updater of [setProducts] in [onProductFound], lines 88-92. *)
Definition addProduct (prev : list Product.t) (newProduct : Product.t) : list Product.t :=
  if existsb (fun p => String.eqb (Product.id p) (Product.id newProduct)) prev
  then prev
  else prev ++ [newProduct].

(** The updater of [setSelectedCategories] in [onProductFound], lines 95-98. *)
Definition autoSelect (prev : list string) (newProduct : Product.t) : list string :=
  if negb (contains prev (Product.category newProduct))
  then sort_strings (prev ++ [Product.category newProduct])
  else prev.

(** What the two callbacks handed to [fetchPolymakerData] do to the state;
    the log and the timer do nothing to it. *)
Definition handle (st : state) (ev : event) : state :=
  match ev with
  | ProductFound newProduct =>
      mk (addProduct (products st) newProduct)
         (autoSelect (selectedCategories st) newProduct)
         (progressText st)
  | Progress status _ => mk (products st) (selectedCategories st) status
  | Yield | Log _ => st
  end.

(** [initDataFetch]: the catalogue is cleared, the selection is kept, and
    the run's callbacks are applied in order; a run that throws leaves what
    it has loaded. *)
Definition initDataFetch (net : Network) (st : state) : state :=
  fold_left handle (fetchPolymakerData net).1
    (mk [] (selectedCategories st) "Initializing API...").

(** The state of the first render. *)
Definition start : state := mk [] [] EmptyString.

(** [counts[category] = (counts[category] || 0) + 1] on an object whose
    keys are kept in the order they were added. *)
Fixpoint bump (category : string) (counts : list (string * Z)) : list (string * Z) :=
  match counts with
  | [] => [(category, 0 + 1)]
  | (k, n) :: rest =>
      if String.eqb k category
      then (k, (if n =? 0 then 0 else n) + 1) :: rest
      else (k, n) :: bump category rest
  end.

(** [categoryCounts]. *)
Definition categoryCounts (products : list Product.t) : list (string * Z) :=
  fold_left (fun counts p => bump (Product.category p) counts) products [].

(** [uniqueCategories]: [Object.keys(categoryCounts).sort()]. *)
Definition uniqueCategories (products : list Product.t) : list string :=
  sort_strings (List.map fst (categoryCounts products)).

(** The callback of [products.filter] in [visibleProductIds], lines 141-156.
    [toLowerCase] is called on the product and on the colour name of every
    product of a selected category when there is a query. *)
Definition shown (selectedCategories : list string) (query : string) (p : Product.t)
  : result bool :=
  if negb (contains selectedCategories (Product.category p)) then Ok false
  else if negb (String.eqb query EmptyString) then
    product ← call_toLowerCase (Product.product p);
    let matchProduct := includes product query in
    name ← call_toLowerCase (Product.name p);
    let matchColor := includes name query in
    let matchCat := includes (toLowerCase (Product.category p)) query in
    if negb matchProduct && negb matchColor && negb matchCat then Ok false
    else Ok true
  else Ok true.

(** [l.filter(f)] for a callback that can throw. *)
Fixpoint filter_with {A : Type} (f : A -> result bool) (l : list A) : result (list A) :=
  match l with
  | [] => Ok []
  | a :: rest =>
      keep ← f a;
      kept ← filter_with f rest;
      Ok (if keep : bool then a :: kept else kept)
  end.

(** [visibleProductIds]. *)
Definition visibleProductIds (products : list Product.t)
    (selectedCategories : list string) (searchQuery : string) : result (gset string) :=
  if (length selectedCategories =? 0)%nat then Ok ∅
  else
    let query := trim (toLowerCase searchQuery) in
    filtered ← filter_with (shown selectedCategories query) products;
    Ok (list_to_set (List.map Product.id filtered)).

(** [handleToggleCategory]. *)
Definition handleToggleCategory (prev : list string) (category : string) : list string :=
  if contains prev category
  then List.filter (fun c => negb (String.eqb c category)) prev
  else prev ++ [category].

(** [handleSelectAllCategories] and [handleClearAllCategories]. *)
Definition handleSelectAllCategories (products : list Product.t) : list string :=
  uniqueCategories products.
Definition handleClearAllCategories : list string := [].

End App.

(** Strictly ascending in the order of the default sort. *)
Definition ascending (l : list string) : Prop :=
  StronglySorted (fun a b => compare_units a b < 0) l.

(** The categories of a list of products, in order, with repetitions. *)
Definition categories_of (ps : list Product.t) : list string :=
  List.map Product.category ps.

(** The text of a value that is a string. *)
Definition text_of (v : JSValue) : string :=
  match v with
  | JStr s => s
  | _ => EmptyString
  end.

Definition is_text (v : JSValue) : bool :=
  match v with
  | JStr _ => true
  | _ => false
  end.

(** An ASCII text. *)
Definition ascii_text (v : JSValue) : bool :=
  match v with
  | JStr s => is_ascii s
  | _ => false
  end.

(** The query occurs in the product, the colour name or the category of the
    product, the case of letters apart. *)
Definition matches (query : string) (p : Product.t) : bool :=
  existsb (fun field => includes (toLowerCase field) query)
    [text_of (Product.product p); text_of (Product.name p); Product.category p].

(** The number a count object holds for a category, 0 when it has none. *)
Fixpoint count_of (category : string) (counts : list (string * Z)) : Z :=
  match counts with
  | [] => 0
  | (k, n) :: rest => if String.eqb k category then n else count_of category rest
  end.

(** The number of products of a category. *)
Definition tally (category : string) (ps : list Product.t) : Z :=
  Z.of_nat (length (List.filter (fun p => String.eqb (Product.category p) category) ps)).

(** The sum of the numbers of a count object. *)
Definition total (counts : list (string * Z)) : Z :=
  fold_right (fun kn acc => kn.2 + acc) 0 counts.

(** A record with an id whose colour name is a number, and the response
    that holds it after a well-formed record. *)
Definition numbered_name : JSValue :=
  JObj [("id", JNum 2); ("product", JStr "PolyTerra PLA"); ("name", JNum 5005);
        ("hex", JStr "#0000FF")]%string.
Definition numbered_name_response : JSValue := JArr [red_record; numbered_name].

(* ===================================================================== *)
(** ** Scene.tsx: the level of detail and the node keys *)
(* ===================================================================== *)

(** [newThreshold] of lines 150-157, of the distance from the camera to the
    target of the controls; [dist > c] is [c < dist]. *)
Definition newThreshold (dist : float) : float :=
  if (800 <? dist)%float then 45%float
  else if (500 <? dist)%float then 30%float
  else if (300 <? dist)%float then 15%float
  else 4%float.

(** The callback of [useFrame], lines 145-162: the threshold after a frame.
    [dist] is [None] while [controlsRef.current] is not set. *)
Definition useFrame (dist : option float) (clusterThreshold : float) : float :=
  match dist with
  | Some dist =>
      if negb (newThreshold dist =? clusterThreshold)%float   (* !== *)
      then newThreshold dist
      else clusterThreshold
  | None => clusterThreshold
  end.

(** The key of a node, line 246.  [node.products[0]] is [undefined] for a
    node without products, and reading its [id] throws. *)
Definition key (node : Cluster.t) : result string :=
  match Cluster.products node with
  | first :: _ =>
      Ok (Product.id first
          +:+ (if (1 <? length (Cluster.products node))%nat then "-cluster" else ""))
  | [] => Throw TypeError
  end.

(** The keys of a list of nodes. *)
Fixpoint keys (nodes : list Cluster.t) : result (list string) :=
  match nodes with
  | [] => Ok []
  | node :: rest => k ← key node; ks ← keys rest; Ok (k :: ks)
  end.

(** The four levels of detail. *)
Definition levels : list float := [4%float; 15%float; 30%float; 45%float].

(** The members of a node are in the order of their ids. *)
Definition in_id_order (cmp : string -> string -> Z) (node : Cluster.t) : Prop :=
  StronglySorted (fun p q => cmp (Product.id p) (Product.id q) <= 0)
    (Cluster.products node).

(** Three products of which two are near: the key of their node is the id
    of the third. *)
Definition keyed_a : Product.t := entry "a" "#000000".
Definition keyed_b : Product.t := entry "b" "#010101".
Definition keyed_a_cluster : Product.t := entry "a-cluster" "#ffffff".
Definition keyed_ids : gset string :=
  {["a"%string]} ∪ {["b"%string]} ∪ {["a-cluster"%string]}.

(* ===================================================================== *)
(** * Properties *)
(* ===================================================================== *)

(** ** The hexadecimal patterns *)

Lemma hex_value_range c : is_hex_digit c = true -> 0 <= hex_value c <= 15.
Proof.
  unfold is_hex_digit, hex_value, is_digit, is_lower.
  generalize (code c); intros n H.
  destruct (48 <=? n) eqn:E1, (n <=? 57) eqn:E2, (97 <=? n) eqn:E3,
    (n <=? 102) eqn:E4, (65 <=? n) eqn:E5, (n <=? 70) eqn:E6, (n <=? 122) eqn:E7;
    simpl in *; try discriminate; lia.
Qed.

Lemma take_hex_spec w : forall s grp rest,
  take_hex w s = Some (grp, rest) ->
  s = (grp +:+ rest)%string /\ String.length grp = w /\ all_chars is_hex_digit grp = true.
Proof.
  induction w as [|w IH]; intros s grp rest H; simpl in H.
  - inversion H; subst. auto.
  - destruct s as [|c s']; [discriminate|].
    destruct (is_hex_digit c) eqn:Hc; [|discriminate].
    destruct (take_hex w s') as [[g' r']|] eqn:Ht; [|discriminate].
    inversion H; subst. destruct (IH _ _ _ Ht) as (-> & Hl & Ha).
    simpl. rewrite Hc, Hl, Ha. auto.
Qed.

Lemma take_hex_complete w : forall grp rest,
  String.length grp = w -> all_chars is_hex_digit grp = true ->
  take_hex w (grp +:+ rest) = Some (grp, rest).
Proof.
  induction w as [|w IH]; intros [|c grp] rest Hl Ha; simpl in *; try discriminate; auto.
  apply andb_true_iff in Ha as [Hc Ha]. rewrite Hc, IH; auto.
Qed.

Lemma length_append (s t : string) :
  String.length (s +:+ t) = (String.length s + String.length t)%nat.
Proof. induction s; simpl; auto. Qed.

Lemma all_chars_append f (s t : string) :
  all_chars f (s +:+ t) = all_chars f s && all_chars f t.
Proof. induction s; simpl; auto. rewrite IHs. apply andb_assoc. Qed.

Lemma append_empty_r (s : string) : (s +:+ "")%string = s.
Proof. induction s; simpl; congruence. Qed.

(** A pattern of three groups of [w] digits matches exactly the strings of
    [3 * w] hexadecimal digits after an optional "#". *)
Lemma exec_hex_spec w s r g b :
  exec_hex w s = Some (r, g, b) ->
  skip_hash s = (r +:+ g +:+ b)%string
  /\ String.length r = w /\ String.length g = w /\ String.length b = w
  /\ all_chars is_hex_digit r = true /\ all_chars is_hex_digit g = true
  /\ all_chars is_hex_digit b = true.
Proof.
  unfold exec_hex. intros H.
  destruct (take_hex w (skip_hash s)) as [[g1 s1]|] eqn:H1; [|discriminate].
  destruct (take_hex w s1) as [[g2 s2]|] eqn:H2; [|discriminate].
  destruct (take_hex w s2) as [[g3 s3]|] eqn:H3; [|discriminate].
  destruct s3; [|discriminate]. inversion H; subst.
  apply take_hex_spec in H1 as (E1 & L1 & A1).
  apply take_hex_spec in H2 as (E2 & L2 & A2).
  apply take_hex_spec in H3 as (E3 & L3 & A3).
  subst. rewrite append_empty_r in E1. auto 10.
Qed.

Lemma exec_hex_length w s r g b :
  exec_hex w s = Some (r, g, b) ->
  String.length (skip_hash s) = (3 * w)%nat /\ all_chars is_hex_digit (skip_hash s) = true.
Proof.
  intros H. apply exec_hex_spec in H as (E & L1 & L2 & L3 & A1 & A2 & A3).
  rewrite E, !length_append, !all_chars_append, A1, A2, A3. split; [lia|reflexivity].
Qed.

Lemma parseInt16_byte (s : string) :
  String.length s = 2%nat -> all_chars is_hex_digit s = true ->
  0 <= parseInt16 s <= 255.
Proof.
  destruct s as [|c1 [|c2 [|]]]; simpl; try discriminate. intros _ H.
  apply andb_true_iff in H as [H1 H2]. apply andb_true_iff in H2 as [H2 _].
  apply hex_value_range in H1, H2. unfold parseInt16; simpl. lia.
Qed.

Lemma hexToRgb_range hex :
  0 <= Rgb.r (hexToRgb hex) <= 255 /\ 0 <= Rgb.g (hexToRgb hex) <= 255
  /\ 0 <= Rgb.b (hexToRgb hex) <= 255.
Proof.
  unfold hexToRgb.
  destruct (exec_hex 2 (expand_shorthand hex)) as [[[r g] b]|] eqn:E; simpl; [|lia].
  apply exec_hex_spec in E as (_ & L1 & L2 & L3 & A1 & A2 & A3).
  auto using parseInt16_byte.
Qed.

Lemma skip_hash_hex_digits (s : string) :
  all_chars is_hex_digit s = true -> skip_hash s = s.
Proof.
  destruct s as [|c s]; simpl; auto.
  destruct c as [[] [] [] [] [] [] [] []]; auto; discriminate.
Qed.

(** An input that is neither three nor six hexadecimal digits, after an
    optional "#", matches neither pattern and is decoded as (0,0,0). *)
Lemma hexToRgb_unmatched hex :
  hex_pattern hex = false -> hexToRgb hex = Rgb.mk 0 0 0.
Proof.
  unfold hex_pattern, hexToRgb, expand_shorthand. intros H.
  destruct (exec_hex 1 hex) as [[[r g] b]|] eqn:E1.
  - apply exec_hex_length in E1 as [L A]. rewrite L, A in H. discriminate.
  - destruct (exec_hex 2 hex) as [[[r g] b]|] eqn:E2; [|reflexivity].
    apply exec_hex_length in E2 as [L A]. rewrite L, A in H. discriminate.
Qed.

Lemma exec_hex_of_digits w (r g b : string) :
  String.length r = w -> String.length g = w -> String.length b = w ->
  all_chars is_hex_digit r = true -> all_chars is_hex_digit g = true ->
  all_chars is_hex_digit b = true ->
  exec_hex w (r +:+ g +:+ b) = Some (r, g, b)
  /\ exec_hex w ("#" +:+ r +:+ g +:+ b) = Some (r, g, b).
Proof.
  intros L1 L2 L3 A1 A2 A3.
  assert (exec_hex w ("#" +:+ r +:+ g +:+ b) = Some (r, g, b)) as Hh.
  { unfold exec_hex. simpl skip_hash.
    rewrite take_hex_complete by assumption.
    rewrite take_hex_complete by assumption.
    rewrite <- (append_empty_r b) at 1. rewrite take_hex_complete by assumption.
    reflexivity. }
  split; [|exact Hh].
  unfold exec_hex in *. simpl skip_hash in Hh.
  rewrite skip_hash_hex_digits; [exact Hh|].
  rewrite !all_chars_append, A1, A2, A3. reflexivity.
Qed.

(** Six digits decode pairwise, with or without "#". *)
Lemma hexToRgb_six_digits (a b c d e f : ascii) :
  is_hex_digit a = true -> is_hex_digit b = true -> is_hex_digit c = true ->
  is_hex_digit d = true -> is_hex_digit e = true -> is_hex_digit f = true ->
  let digits := String a (String b (String c (String d (String e (String f ""))))) in
  hexToRgb digits
  = Rgb.mk (16 * hex_value a + hex_value b) (16 * hex_value c + hex_value d)
      (16 * hex_value e + hex_value f)
  /\ hexToRgb ("#" +:+ digits) = hexToRgb digits.
Proof.
  intros Ha Hb Hc Hd He Hf digits.
  destruct (exec_hex_of_digits 2 (String a (char_string b)) (String c (char_string d))
              (String e (char_string f)))
    as [D2 D2h]; try reflexivity;
    try (simpl; rewrite ?Ha, ?Hb, ?Hc, ?Hd, ?He, ?Hf; reflexivity).
  unfold char_string in *. simpl in D2, D2h.
  assert (all_chars is_hex_digit digits = true) as Hall
    by (simpl; rewrite Ha, Hb, Hc, Hd, He, Hf; reflexivity).
  assert (exec_hex 1 digits = None) as N1.
  { destruct (exec_hex 1 digits) as [[[r g] b']|] eqn:E; [|reflexivity].
    apply exec_hex_length in E as [L _].
    rewrite skip_hash_hex_digits in L by exact Hall. discriminate. }
  assert (exec_hex 1 (String "#" digits) = None) as N1h.
  { destruct (exec_hex 1 (String "#" digits)) as [[[r g] b']|] eqn:E; [|reflexivity].
    apply exec_hex_length in E as [L _]. discriminate. }
  subst digits. simpl.
  unfold hexToRgb, expand_shorthand. rewrite N1, D2, N1h, D2h.
  unfold parseInt16. simpl. split; [f_equal; lia|reflexivity].
Qed.

(** The three-digit shorthand decodes as the six-digit form with every digit
    doubled, with or without "#". *)
Lemma hexToRgb_shorthand (a b c : ascii) :
  is_hex_digit a = true -> is_hex_digit b = true -> is_hex_digit c = true ->
  let doubled := String a (String a (String b (String b (String c (String c ""))))) in
  let short := String a (String b (String c "")) in
  hexToRgb short = hexToRgb doubled
  /\ hexToRgb ("#" +:+ short) = hexToRgb doubled
  /\ hexToRgb ("#" +:+ doubled) = hexToRgb doubled
  /\ hexToRgb doubled = Rgb.mk (17 * hex_value a) (17 * hex_value b) (17 * hex_value c).
Proof.
  intros Ha Hb Hc doubled short.
  destruct (exec_hex_of_digits 1 (char_string a) (char_string b) (char_string c))
    as [S1 S1h]; try reflexivity; try (simpl; rewrite ?Ha, ?Hb, ?Hc; reflexivity).
  destruct (exec_hex_of_digits 2 (String a (char_string a)) (String b (char_string b))
              (String c (char_string c)))
    as [D2 D2h]; try reflexivity; try (simpl; rewrite ?Ha, ?Hb, ?Hc; reflexivity).
  unfold char_string in *. simpl in S1, S1h, D2, D2h.
  assert (all_chars is_hex_digit doubled = true) as Hall
    by (simpl; rewrite Ha, Hb, Hc; reflexivity).
  assert (exec_hex 1 doubled = None) as N1.
  { destruct (exec_hex 1 doubled) as [[[r g] b']|] eqn:E; [|reflexivity].
    apply exec_hex_length in E as [L _].
    rewrite skip_hash_hex_digits in L by exact Hall. discriminate. }
  assert (exec_hex 1 (String "#" doubled) = None) as N1h.
  { destruct (exec_hex 1 (String "#" doubled)) as [[[r g] b']|] eqn:E; [|reflexivity].
    apply exec_hex_length in E as [L _]. discriminate. }
  assert (forall x y z : Z, Rgb.mk (16 * (16 * 0 + x) + x) (16 * (16 * 0 + y) + y)
                              (16 * (16 * 0 + z) + z) = Rgb.mk (17 * x) (17 * y) (17 * z))
    as Hmul by (intros; f_equal; lia).
  subst doubled short. simpl.
  assert (hexToRgb (String a (String a (String b (String b (String c (String c ""))))))
          = Rgb.mk (17 * hex_value a) (17 * hex_value b) (17 * hex_value c)) as Hd.
  { unfold hexToRgb, expand_shorthand. rewrite N1, D2. apply Hmul. }
  rewrite Hd. repeat split.
  - unfold hexToRgb, expand_shorthand. rewrite S1. simpl. rewrite D2. apply Hmul.
  - unfold hexToRgb, expand_shorthand. rewrite S1h. simpl. rewrite D2. apply Hmul.
  - unfold hexToRgb, expand_shorthand. rewrite N1h, D2h. apply Hmul.
Qed.

(** ** The clusters partition the visible products *)

Lemma fit_within THRESHOLD item : forall pre cluster post,
  Forall (fun c => within THRESHOLD item c = false) pre ->
  within THRESHOLD item cluster = true ->
  fit THRESHOLD item (pre ++ cluster :: post) = Some (pre ++ absorb cluster item :: post).
Proof.
  induction pre as [|c pre IH]; intros cluster post Hpre Hc; simpl.
  - unfold within in Hc. rewrite Hc. reflexivity.
  - inversion Hpre as [|? ? Hc' Hpre']; subst. unfold within in Hc'. rewrite Hc'.
    rewrite IH by assumption. reflexivity.
Qed.

Lemma fit_none THRESHOLD item clusters :
  Forall (fun c => within THRESHOLD item c = false) clusters ->
  fit THRESHOLD item clusters = None.
Proof.
  induction 1 as [|c cs Hc _ IH]; simpl; [reflexivity|].
  unfold within in Hc. rewrite Hc, IH. reflexivity.
Qed.

(** Whatever [fit] answers, it answers by the first cluster within the
    threshold. *)
Lemma fit_cases THRESHOLD item clusters :
  (fit THRESHOLD item clusters = None
   /\ Forall (fun c => within THRESHOLD item c = false) clusters)
  \/ (exists pre cluster post,
        clusters = pre ++ cluster :: post
        /\ Forall (fun c => within THRESHOLD item c = false) pre
        /\ within THRESHOLD item cluster = true
        /\ fit THRESHOLD item clusters = Some (pre ++ absorb cluster item :: post)).
Proof.
  induction clusters as [|c cs IH]; simpl.
  - left. split; [reflexivity|constructor].
  - destruct (dist c item <? THRESHOLD)%float eqn:Hc.
    + right. exists [], c, cs. repeat split; auto.
    + destruct IH as [[Hn Hall]|(pre & c' & post & -> & Hpre & Hc' & Hf)].
      * left. rewrite Hn. split; [reflexivity|]. constructor; assumption.
      * right. exists (c :: pre), c', post. rewrite Hf. repeat split; auto.
Qed.

Lemma members_app cs1 cs2 : members (cs1 ++ cs2) = members cs1 ++ members cs2.
Proof. apply flat_map_app. Qed.

Lemma place_members THRESHOLD clusters item :
  Permutation (members (place THRESHOLD clusters item))
              (members clusters ++ [Item.product item]).
Proof.
  unfold place.
  destruct (fit_cases THRESHOLD item clusters)
    as [[-> _]|(pre & c & post & -> & _ & _ & ->)].
  - rewrite members_app. simpl. rewrite ?app_nil_r. reflexivity.
  - rewrite !members_app. simpl. rewrite <- !List.app_assoc.
    apply Permutation_app_head, Permutation_app_head, Permutation_app_comm.
Qed.

Lemma fold_place_members THRESHOLD items : forall clusters,
  Permutation (members (fold_left (place THRESHOLD) items clusters))
              (members clusters ++ List.map Item.product items).
Proof.
  induction items as [|it items IH]; intros clusters; simpl.
  - rewrite app_nil_r. reflexivity.
  - rewrite IH, place_members, <- List.app_assoc. reflexivity.
Qed.

Lemma insert_item_perm cmp a : forall l, Permutation (insert_item cmp a l) (a :: l).
Proof.
  induction l as [|b l IH]; simpl; [reflexivity|].
  destruct (by_id cmp a b <=? 0); [reflexivity|].
  rewrite IH. apply perm_swap.
Qed.

Lemma sort_perm cmp items : Permutation (sort cmp items) items.
Proof.
  induction items as [|a l IH]; simpl; [reflexivity|].
  rewrite insert_item_perm, IH. reflexivity.
Qed.

Lemma map_product_item_of ps : List.map Item.product (List.map item_of ps) = ps.
Proof. induction ps; simpl; congruence. Qed.

(** Every visible product is in exactly one cluster, and nothing else is. *)
Lemma renderNodes_partition cmp allProducts visibleProductIds THRESHOLD :
  Permutation (members (renderNodes cmp allProducts visibleProductIds THRESHOLD))
              (visible visibleProductIds allProducts).
Proof.
  unfold renderNodes. rewrite fold_place_members. simpl.
  rewrite (sort_perm cmp), map_product_item_of. reflexivity.
Qed.

Lemma place_nonempty THRESHOLD clusters item :
  Forall (fun c => Cluster.products c <> []) clusters ->
  Forall (fun c => Cluster.products c <> []) (place THRESHOLD clusters item).
Proof.
  intros Hall. unfold place.
  destruct (fit_cases THRESHOLD item clusters)
    as [[-> _]|(pre & c & post & -> & _ & _ & ->)].
  - apply Forall_app. split; [assumption|]. repeat constructor. discriminate.
  - apply Forall_app in Hall as [Hpre Hpost]. apply Forall_app. split; [assumption|].
    inversion Hpost; subst. constructor; [|assumption].
    simpl. destruct (Cluster.products c); discriminate.
Qed.

Lemma fold_place_nonempty THRESHOLD items : forall clusters,
  Forall (fun c => Cluster.products c <> []) clusters ->
  Forall (fun c => Cluster.products c <> []) (fold_left (place THRESHOLD) items clusters).
Proof.
  induction items as [|it items IH]; intros clusters Hall; simpl; [assumption|].
  apply IH, place_nonempty, Hall.
Qed.

(** The clusters of [renderNodes] are a partition of the visible products:
    their members, taken together, are the visible products, each once, and
    no cluster is empty. *)
Theorem renderNodes_partitions_the_visible_products
    (localeCompare : string -> string -> Z) (allProducts : list Product.t)
    (visibleProductIds : gset string) (clusterThreshold : float) :
  Permutation
    (members (renderNodes localeCompare allProducts visibleProductIds clusterThreshold))
    (visible visibleProductIds allProducts)
  /\ Forall (fun c => Cluster.products c <> [])
       (renderNodes localeCompare allProducts visibleProductIds clusterThreshold).
Proof.
  split; [apply renderNodes_partition|].
  unfold renderNodes. apply fold_place_nonempty. constructor.
Qed.

(** ** C3 and C10: what the plotting utility does with a colour it cannot decode *)

(** C3, as the code has it.  For every input that does not match the hex
    colour pattern (an optional "#", then three or six hexadecimal digits)
    [hexToRgb] returns the channel triple (0,0,0): it has no absent result
    and throws nothing.  For every input it returns three integers in
    [0,255]; a three-digit shorthand decodes as the six-digit colour with
    each digit doubled, so that a digit [d] gives the channel [17 * d]; and
    six digits decode pairwise. *)
Theorem hexToRgb_falls_back_to_origin :
  (forall s, hex_pattern s = false -> hexToRgb s = Rgb.mk 0 0 0)
  /\ (forall s, 0 <= Rgb.r (hexToRgb s) <= 255 /\ 0 <= Rgb.g (hexToRgb s) <= 255
                /\ 0 <= Rgb.b (hexToRgb s) <= 255)
  /\ (forall a b c,
        is_hex_digit a = true -> is_hex_digit b = true -> is_hex_digit c = true ->
        let doubled := String a (String a (String b (String b (String c (String c ""))))) in
        let short := String a (String b (String c "")) in
        hexToRgb short = hexToRgb doubled
        /\ hexToRgb ("#" +:+ short) = hexToRgb doubled
        /\ hexToRgb ("#" +:+ doubled) = hexToRgb doubled
        /\ hexToRgb doubled
           = Rgb.mk (17 * hex_value a) (17 * hex_value b) (17 * hex_value c))
  /\ (forall a b c d e f,
        is_hex_digit a = true -> is_hex_digit b = true -> is_hex_digit c = true ->
        is_hex_digit d = true -> is_hex_digit e = true -> is_hex_digit f = true ->
        let digits := String a (String b (String c (String d (String e (String f ""))))) in
        hexToRgb digits
        = Rgb.mk (16 * hex_value a + hex_value b) (16 * hex_value c + hex_value d)
            (16 * hex_value e + hex_value f)
        /\ hexToRgb ("#" +:+ digits) = hexToRgb digits).
Proof.
  split; [exact hexToRgb_unmatched|]. split; [exact hexToRgb_range|].
  split; [exact hexToRgb_shorthand|exact hexToRgb_six_digits].
Qed.

(** C3, as stated, fails: "nothex" does not match the pattern, and the
    utility returns a channel triple for it, not an absent result. *)
Lemma hexToRgb_returns_triple_for_unmatched :
  hex_pattern "nothex" = false
  /\ valid_hex "nothex" = false
  /\ hexToRgb "nothex" = Rgb.mk 0 0 0.
Proof. repeat split. Qed.

(** C10.  A visible catalogue entry whose hex passed the normalizer's
    pattern with 4, 5, 7 or 8 digits is not decoded by the plotting utility,
    which yields (0,0,0); the entry gets the position (0,0,0) and is still a
    member of a cluster of [renderNodes]. *)
Theorem undecodable_hex_is_plotted_at_origin
    (localeCompare : string -> string -> Z) (allProducts : list Product.t)
    (visibleProductIds : gset string) (clusterThreshold : float) (p : Product.t) :
  In p allProducts ->
  Product.id p ∈ visibleProductIds ->
  valid_hex (Product.hex p) = true ->
  In (hex_digit_count (Product.hex p)) [4; 5; 7; 8]%nat ->
  hexToRgb (Product.hex p) = Rgb.mk 0 0 0
  /\ item_of p = Item.mk p 0 0 0
  /\ exists cluster,
       In cluster (renderNodes localeCompare allProducts visibleProductIds clusterThreshold)
       /\ In p (Cluster.products cluster).
Proof.
  intros Hin Hvis Hvalid Hcount.
  assert (hexToRgb (Product.hex p) = Rgb.mk 0 0 0) as H0.
  { apply hexToRgb_unmatched. unfold hex_pattern, hex_digit_count in *.
    destruct (String.length (skip_hash (Product.hex p)))
      as [|[|[|[|[|[|[|[|[|n]]]]]]]]]; simpl in Hcount |- *;
      try reflexivity; exfalso; intuition discriminate. }
  split; [exact H0|]. split.
  { unfold item_of. rewrite H0. reflexivity. }
  apply in_flat_map.
  eapply Permutation_in; [symmetry; apply renderNodes_partition|].
  unfold visible. apply filter_In. split; [assumption|].
  apply bool_decide_eq_true. assumption.
Qed.

(** C10 at an eight-digit colour (with an alpha channel). *)
Lemma undecodable_hex_is_plotted_at_origin_witness :
  let p := entry "a" "#11223344" in
  hexToRgb (Product.hex p) = Rgb.mk 0 0 0
  /\ item_of p = Item.mk p 0 0 0
  /\ exists cluster,
       In cluster (renderNodes compare_units [entry "b" "#ffffff"; p]
                     ({["a"%string]} ∪ {["b"%string]}) 15%float)
       /\ In p (Cluster.products cluster).
Proof.
  apply (undecodable_hex_is_plotted_at_origin compare_units
           [entry "b" "#ffffff"; entry "a" "#11223344"]
           ({["a"%string]} ∪ {["b"%string]}) 15%float (entry "a" "#11223344")).
  - simpl. auto.
  - simpl. set_solver.
  - reflexivity.
  - simpl. auto.
Defined.

(** ** The processing order *)

Section Collation.

Variable cmp : string -> string -> Z.
Hypothesis cmp_consistent : consistent cmp.

Lemma cmp_total a b : cmp a b <= 0 \/ cmp b a <= 0.
Proof.
  destruct cmp_consistent as [Hsign _].
  destruct (Z_le_gt_dec (cmp a b) 0) as [H|H]; [left; exact H|right].
  assert (cmp b a < 0) by (apply Hsign; lia). lia.
Qed.

Lemma cmp_tie a b : cmp a b <= 0 -> cmp b a <= 0 -> cmp a b = 0.
Proof.
  destruct cmp_consistent as [Hsign _]. intros H1 H2.
  destruct (Z.eq_dec (cmp a b) 0) as [|Hne]; [assumption|].
  assert (0 < cmp b a) by (apply Hsign; lia). lia.
Qed.

Lemma precedes_trans a b c : precedes cmp a b -> precedes cmp b c -> precedes cmp a c.
Proof. destruct cmp_consistent as [_ Htrans]. unfold precedes, by_id. apply Htrans. Qed.

Lemma insert_item_sorted a : forall l,
  StronglySorted (precedes cmp) l -> StronglySorted (precedes cmp) (insert_item cmp a l).
Proof.
  induction l as [|b l IH]; intros Hs; simpl.
  - repeat constructor.
  - inversion Hs as [|? ? Hl Hb]; subst.
    destruct (by_id cmp a b <=? 0) eqn:E.
    + apply Z.leb_le in E. constructor; [assumption|].
      constructor; [exact E|].
      eapply List.Forall_impl; [|exact Hb]. intros c Hc. eapply precedes_trans; eassumption.
    + apply Z.leb_gt in E. constructor; [apply IH; assumption|].
      apply List.Forall_forall. intros c Hc.
      apply (Permutation_in _ (insert_item_perm cmp a l)) in Hc as [<-|Hc].
      * destruct (cmp_total (Product.id (Item.product a)) (Product.id (Item.product b)));
          unfold precedes, by_id in *; [lia|assumption].
      * rewrite List.Forall_forall in Hb. apply Hb, Hc.
Qed.

Lemma sort_sorted items : StronglySorted (precedes cmp) (sort cmp items).
Proof.
  induction items as [|a l IH]; simpl; [constructor|].
  apply insert_item_sorted, IH.
Qed.

(** Two sorted arrangements of the same items are equal when no two
    different items tie. *)
Lemma sorted_arrangement_unique : forall l1 l2 : list Item.t,
  StronglySorted (precedes cmp) l1 -> StronglySorted (precedes cmp) l2 ->
  Permutation l1 l2 ->
  (forall a b, In a l1 -> In b l1 -> precedes cmp a b -> precedes cmp b a -> a = b) ->
  l1 = l2.
Proof.
  induction l1 as [|a l1 IH]; intros l2 S1 S2 HP Hanti.
  - apply Permutation_nil in HP. congruence.
  - destruct l2 as [|b l2]; [apply Permutation_sym, Permutation_nil in HP; discriminate|].
    inversion S1 as [|? ? S1' F1]; inversion S2 as [|? ? S2' F2]; subst.
    rewrite List.Forall_forall in F1, F2.
    assert (a = b) as ->.
    { assert (In b (a :: l1)) as Hb
        by (eapply Permutation_in; [symmetry; exact HP|left; reflexivity]).
      assert (In a (b :: l2)) as Ha
        by (eapply Permutation_in; [exact HP|left; reflexivity]).
      destruct Hb as [Hb|Hb]; [exact Hb|]. destruct Ha as [Ha|Ha]; [symmetry; exact Ha|].
      apply Hanti; [left; reflexivity|right; exact Hb|apply F1, Hb|apply F2, Ha]. }
    f_equal. apply IH; try assumption.
    + eapply Permutation_cons_inv; exact HP.
    + intros x y Hx Hy. apply Hanti; right; assumption.
Qed.

End Collation.

Lemma filter_perm {A} (f : A -> bool) (l1 l2 : list A) :
  Permutation l1 l2 -> Permutation (List.filter f l1) (List.filter f l2).
Proof.
  induction 1 as [|x l l' _ IH|x y l|l l' l'' _ IH1 _ IH2]; simpl.
  - constructor.
  - destruct (f x); [constructor|]; exact IH.
  - destruct (f x), (f y); try reflexivity. apply perm_swap.
  - etransitivity; eassumption.
Qed.

Lemma same_id_same_product (ps : list Product.t) :
  List.NoDup (List.map Product.id ps) ->
  forall p q, In p ps -> In q ps -> Product.id p = Product.id q -> p = q.
Proof.
  induction ps as [|a ps IH]; simpl; intros Hnd p q Hp Hq Hid; [contradiction|].
  apply NoDup_cons_iff in Hnd as [Hna Hnd].
  destruct Hp as [<-|Hp], Hq as [<-|Hq]; auto.
  - exfalso. apply Hna. rewrite Hid. apply in_map, Hq.
  - exfalso. apply Hna. rewrite <- Hid. apply in_map, Hp.
Qed.

(** With a consistent collation that tells the ids apart, the clustering
    does not depend on the order in which the products are supplied. *)
Lemma renderNodes_order_independent (cmp : string -> string -> Z)
    (products1 products2 : list Product.t) (visibleProductIds : gset string)
    (clusterThreshold : float) :
  consistent cmp ->
  Permutation products1 products2 ->
  List.NoDup (List.map Product.id products1) ->
  separates cmp products1 ->
  renderNodes cmp products1 visibleProductIds clusterThreshold
  = renderNodes cmp products2 visibleProductIds clusterThreshold.
Proof.
  intros Hc HP Hnd Hsep. unfold renderNodes. f_equal.
  apply (sorted_arrangement_unique cmp); try (apply sort_sorted; assumption).
  - rewrite !sort_perm. apply Permutation_map, filter_perm, HP.
  - intros a b Ha Hb Hab Hba.
    apply (Permutation_in _ (sort_perm cmp _)) in Ha, Hb.
    apply in_map_iff in Ha as (p & <- & Hp), Hb as (q & <- & Hq).
    apply filter_In in Hp as [Hp _], Hq as [Hq _].
    f_equal. apply (same_id_same_product products1 Hnd); try assumption.
    apply Hsep; try assumption.
    apply (cmp_tie cmp Hc); assumption.
Qed.

Lemma ascii_compare_spec (a b : ascii) :
  CompareSpec (a = b) (N_of_ascii a < N_of_ascii b)%N (N_of_ascii b < N_of_ascii a)%N
    (Ascii.compare a b).
Proof.
  unfold Ascii.compare. destruct (N.compare_spec (N_of_ascii a) (N_of_ascii b)) as [E|L|G];
    constructor; try assumption.
  rewrite <- (ascii_N_embedding a), <- (ascii_N_embedding b), E. reflexivity.
Qed.

Lemma string_compare_refl (s : string) : String.compare s s = Eq.
Proof.
  induction s as [|c s IH]; simpl; [reflexivity|].
  destruct (ascii_compare_spec c c); try lia. exact IH.
Qed.

Lemma string_compare_trans : forall a b c : string,
  String.compare a b <> Gt -> String.compare b c <> Gt -> String.compare a c <> Gt.
Proof.
  induction a as [|x a IH]; intros [|y b] [|z c]; simpl; try congruence.
  destruct (ascii_compare_spec x y), (ascii_compare_spec y z), (ascii_compare_spec x z);
    subst; try congruence; try lia; try apply IH.
Qed.

Lemma compare_units_consistent : consistent compare_units.
Proof.
  split.
  - intros a b. unfold compare_units. rewrite (String.compare_antisym b a).
    destruct (String.compare a b); simpl; lia.
  - intros a b c. unfold compare_units. intros Hab Hbc.
    pose proof (string_compare_trans a b c) as Ht.
    destruct (String.compare a b), (String.compare b c), (String.compare a c);
      try lia; exfalso; apply Ht; congruence.
Qed.

(** ** C1: first fit in cluster-creation order *)

(** C1.  [renderNodes] processes the visible products in the order of the
    sort by id and gives each one to the first cluster, in creation order,
    whose centre is at a distance strictly below the threshold, whether or
    not a later cluster is nearer; that cluster's centre becomes
    [(old * (n - 1) + point) / n] per channel, [n] its new size; a product
    within the threshold of no cluster opens a new cluster at its own point.
    The point of a product is its red, green and blue channels, and the
    distance is the Euclidean one, over the three channels, from the centre
    of the cluster as it stands to the point.
    For the colours (0,0,0), (2,2,2) and (200,200,200) the threshold 15 gives
    one cluster of the first two and a singleton, and the threshold 400 one
    cluster of all three.  Further examples: a later cluster that is nearer
    is not chosen; a difference of 20 in the green or in the blue channel
    alone separates two colours; three differences of 9 do (the distance is
    above 15) and three of 8 do not; a colour at 20 joins the cluster of 0
    and 14, whose centre is 7, and a colour at 22 does not join the cluster
    of 0 and 10, whose centre is 5. *)
Theorem greedy_first_fit_in_id_order :
  (forall cmp allProducts visibleProductIds THRESHOLD,
     let items := List.map item_of (visible visibleProductIds allProducts) in
     renderNodes cmp allProducts visibleProductIds THRESHOLD
     = fold_left (place THRESHOLD) (sort cmp items) []
     /\ Permutation (sort cmp items) items
     /\ (consistent cmp -> StronglySorted (precedes cmp) (sort cmp items)))
  /\ (forall THRESHOLD item pre cluster post,
        Forall (fun c => within THRESHOLD item c = false) pre ->
        within THRESHOLD item cluster = true ->
        place THRESHOLD (pre ++ cluster :: post) item
        = pre ++ absorb cluster item :: post)
  /\ (forall cluster item,
        let n := number_of_Z (Z.of_nat (length (Cluster.products cluster)) + 1) in
        absorb cluster item
        = Cluster.mk (Cluster.products cluster ++ [Item.product item])
            (((Cluster.x cluster * (n - 1)) + Item.x item) / n)%float
            (((Cluster.y cluster * (n - 1)) + Item.y item) / n)%float
            (((Cluster.z cluster * (n - 1)) + Item.z item) / n)%float)
  /\ (forall THRESHOLD item clusters,
        Forall (fun c => within THRESHOLD item c = false) clusters ->
        place THRESHOLD clusters item
        = clusters ++ [Cluster.mk [Item.product item]
                         (Item.x item) (Item.y item) (Item.z item)])
  /\ (forall THRESHOLD item cluster,
        within THRESHOLD item cluster
        = (PrimFloat.sqrt
             ((Cluster.x cluster - Item.x item) * (Cluster.x cluster - Item.x item)
              + (Cluster.y cluster - Item.y item) * (Cluster.y cluster - Item.y item)
              + (Cluster.z cluster - Item.z item) * (Cluster.z cluster - Item.z item))
           <? THRESHOLD)%float)
  /\ (forall p,
        item_of p
        = Item.mk p (number_of_Z (red p)) (number_of_Z (green p)) (number_of_Z (blue p)))
  /\ renderNodes compare_units [light_grey; near_black; black] abc 15%float
     = [Cluster.mk [black; near_black] 1%float 1%float 1%float;
        Cluster.mk [light_grey] 200%float 200%float 200%float]
  /\ member_ids (renderNodes compare_units [light_grey; near_black; black] abc 400%float)
     = [["a"; "b"; "c"]]%string
  /\ renderNodes compare_units [red_20; red_12; red_0] abc 15%float
     = [Cluster.mk [red_0; red_12] 6%float 0%float 0%float;
        Cluster.mk [red_20] 20%float 0%float 0%float]
  /\ member_ids (renderNodes compare_units
                   [entry "a" "#000000"; entry "b" "#0f0000"] abc 15%float)
     = [["a"]; ["b"]]%string
  /\ member_ids (renderNodes compare_units
                   [entry "a" "#000000"; entry "b" "#001400"] abc 15%float)
     = [["a"]; ["b"]]%string
  /\ member_ids (renderNodes compare_units
                   [entry "a" "#000000"; entry "b" "#000014"] abc 15%float)
     = [["a"]; ["b"]]%string
  /\ member_ids (renderNodes compare_units
                   [entry "a" "#000000"; entry "b" "#090909"] abc 15%float)
     = [["a"]; ["b"]]%string
  /\ renderNodes compare_units [entry "a" "#000000"; entry "b" "#080808"] abc 15%float
     = [Cluster.mk [entry "a" "#000000"; entry "b" "#080808"] 4%float 4%float 4%float]
  /\ member_ids (renderNodes compare_units
                   [entry "a" "#000000"; entry "b" "#0e0000"; entry "c" "#140000"]
                   abc 15%float)
     = [["a"; "b"; "c"]]%string
  /\ member_ids (renderNodes compare_units
                   [entry "a" "#000000"; entry "b" "#0a0000"; entry "c" "#160000"]
                   abc 15%float)
     = [["a"; "b"]; ["c"]]%string.
Proof.
  split; [|split; [|split; [|split; [|split; [|split]]]]].
  - intros cmp allProducts V T items. split; [reflexivity|].
    split; [apply sort_perm|]. intros Hc. apply sort_sorted, Hc.
  - intros T item pre cluster post Hpre Hc. unfold place.
    rewrite (fit_within T item pre cluster post Hpre Hc). reflexivity.
  - intros cluster item n. unfold absorb, n.
    rewrite length_app, Nat2Z.inj_add. reflexivity.
  - intros T item clusters Hall. unfold place. rewrite (fit_none T item clusters Hall).
    reflexivity.
  - intros T item cluster. reflexivity.
  - intros p. reflexivity.
  - repeat split; vm_compute; reflexivity.
Qed.

(** ** C2: the order of supply *)

(** Pairwise distinctness of a given list of ids, by computation. *)
Ltac distinct_by_computation :=
  apply NoDup_ListNoDup, (bool_decide_unpack _); vm_compute; exact I.

Lemma consistent_on_image (cmp : string -> string -> Z) (f : string -> string) :
  consistent cmp -> consistent (fun a b => cmp (f a) (f b)).
Proof.
  intros [Hsign Htrans]. split.
  - intros a b. apply Hsign.
  - intros a b c. apply Htrans.
Qed.

Lemma compare_units_separates (ps : list Product.t) : separates compare_units ps.
Proof.
  intros p q _ _. unfold compare_units.
  destruct (String.compare (Product.id p) (Product.id q)) eqn:E; try discriminate.
  intros _. apply String.compare_eq_iff, E.
Qed.

(** C2 at ids that are distinct strings and canonically equivalent.  The
    three products have pairwise distinct ids; the collation is consistent
    and, as [localeCompare] must, compares U+00E9 and U+0065 U+0301 equal;
    the stable sort then keeps the two in the order of supply, and the two
    orders of supply give clusters with different members. *)
Theorem tied_ids_keep_supply_order :
  Permutation [accented_0; accented_20; plain_10] [accented_20; accented_0; plain_10]
  /\ List.NoDup (List.map Product.id [accented_0; accented_20; plain_10])
  /\ consistent collate
  /\ collate e_acute e_then_acute = 0
  /\ member_ids (renderNodes collate [accented_0; accented_20; plain_10]
                   accented_ids 15%float)
     = [["a"%string; e_acute]; [e_then_acute]]
  /\ member_ids (renderNodes collate [accented_20; accented_0; plain_10]
                   accented_ids 15%float)
     = [["a"%string; e_then_acute]; [e_acute]].
Proof.
  split; [apply perm_swap|].
  split; [distinct_by_computation|].
  split; [apply (consistent_on_image compare_units compose_acute), compare_units_consistent|].
  repeat split; vm_compute; reflexivity.
Qed.

(** The statement of C2 where the collation tells the ids apart: the
    scenario of the specification, supplied in two orders. *)
Lemma renderNodes_order_independent_witness :
  renderNodes compare_units [light_grey; near_black; black] abc 15%float
  = renderNodes compare_units [black; light_grey; near_black] abc 15%float.
Proof.
  apply (renderNodes_order_independent compare_units
           [light_grey; near_black; black] [black; light_grey; near_black] abc 15%float).
  - exact compare_units_consistent.
  - apply Permutation_sym, (Permutation_cons_append [light_grey; near_black] black).
  - distinct_by_computation.
  - apply compare_units_separates.
Defined.

(** ** C4: the display colour *)

Lemma add_squares_channels sums p :
  add_squares sums p
  = (sums.1.1 + red p * red p, sums.1.2 + green p * green p, sums.2 + blue p * blue p).
Proof.
  destruct sums as [[rSum gSum] bSum]. unfold add_squares, red, green, blue, hexToRgb.
  destruct (exec_hex 2 (expand_shorthand (Product.hex p))) as [[[r g] b]|]; simpl;
    [reflexivity|]. f_equal; [f_equal|]; lia.
Qed.

Lemma fold_add_squares ps : forall rSum gSum bSum,
  fold_left add_squares ps (rSum, gSum, bSum)
  = (rSum + sum_squares red ps, gSum + sum_squares green ps, bSum + sum_squares blue ps).
Proof.
  induction ps as [|p ps IH]; intros rSum gSum bSum.
  - simpl. f_equal; [f_equal|]; lia.
  - cbn [fold_left]. rewrite add_squares_channels, IH. unfold sum_squares. simpl.
    f_equal; [f_equal|]; lia.
Qed.

(** [Math.round] gives the integer nearest to the exact value [n * 2^e] of
    its argument, the upper one at a tie. *)
Lemma Math_round_nearest (x : float) (s : bool) (m : positive) (e : Z) :
  Prim2SF x = S754_finite s m e ->
  let n := if s then Z.neg m else Z.pos m in
  exists k, Math_round x = Int k
            /\ (0 <= e -> k = n * 2 ^ e)
            /\ (e < 0 -> (2 * k - 1) * 2 ^ (- e) <= 2 * n < (2 * k + 1) * 2 ^ (- e)).
Proof.
  intros H n. unfold Math_round. rewrite H. fold n.
  destruct (0 <=? e) eqn:E; eexists; (split; [reflexivity|]).
  - split; [reflexivity|]. apply Z.leb_le in E. lia.
  - apply Z.leb_gt in E. split; [lia|]. intros _.
    assert (0 < 2 ^ (- e)) as Hd by (apply Z.pow_pos_nonneg; lia).
    replace (2 ^ (1 - e)) with (2 * 2 ^ (- e))
      by (replace (1 - e) with (Z.succ (- e)) by lia; rewrite Z.pow_succ_r by lia; reflexivity).
    pose proof (Z.div_mod (2 * n + 2 ^ (- e)) (2 * 2 ^ (- e))) as Hdm.
    pose proof (Z.mod_pos_bound (2 * n + 2 ^ (- e)) (2 * 2 ^ (- e))) as Hb.
    nia.
Qed.

(** C4.  A node of one product shows the product's own hex.  A node of
    several shows, per channel, [Math.round] of the square root of the mean
    of the squares of the members' channel values, the channels being those
    [hexToRgb] decodes; [Math.round] is the nearest integer.  The members
    (255,0,0) and (0,255,0) give (180,180,0), not (128,128,0). *)
Theorem displayColor_is_root_mean_square :
  (forall p, displayColor [p] = Product.hex p)
  /\ (forall ps, (1 < length ps)%nat ->
        displayColor ps
        = rgb_text (root_mean_square red ps) (root_mean_square green ps)
            (root_mean_square blue ps))
  /\ (forall x s m e,
        Prim2SF x = S754_finite s m e ->
        let n := if s then Z.neg m else Z.pos m in
        exists k, Math_round x = Int k
                  /\ (0 <= e -> k = n * 2 ^ e)
                  /\ (e < 0 -> (2 * k - 1) * 2 ^ (- e) <= 2 * n < (2 * k + 1) * 2 ^ (- e)))
  /\ displayColor [entry "a" "#ff0000"; entry "b" "#00ff00"] = "rgb(180,180,0)"%string
  /\ String.eqb (displayColor [entry "a" "#ff0000"; entry "b" "#00ff00"])
        "rgb(128,128,0)" = false
  /\ (root_mean_square red [entry "a" "#ff0000"; entry "b" "#00ff00"],
      root_mean_square green [entry "a" "#ff0000"; entry "b" "#00ff00"],
      root_mean_square blue [entry "a" "#ff0000"; entry "b" "#00ff00"])
     = (Int 180, Int 180, Int 0).
Proof.
  split; [reflexivity|]. split.
  - intros ps Hlen. unfold displayColor.
    destruct ps as [|p [|q ps]]; simpl in Hlen; try lia.
    rewrite fold_add_squares. reflexivity.
  - split; [exact Math_round_nearest|]. repeat split; vm_compute; reflexivity.
Qed.

(** ** C7: the category classifier *)

Lemma startsWith_spec : forall s t,
  startsWith s t = true <-> exists post, s = (t +:+ post)%string.
Proof.
  intros s t. revert s. induction t as [|c t IH]; intros s; simpl.
  - split; [intros _; exists s; reflexivity|reflexivity].
  - destruct s as [|d s]; simpl.
    + split; [discriminate|intros [post H]; discriminate].
    + rewrite andb_true_iff, Ascii.eqb_eq, IH. split.
      * intros [-> [post ->]]. exists post. reflexivity.
      * intros [post H]. inversion H; subst. split; [reflexivity|exists post; reflexivity].
Qed.

(** [includes] is the substring test. *)
Lemma includes_spec : forall s t,
  includes s t = true <-> exists pre post, s = (pre +:+ t +:+ post)%string.
Proof.
  induction s as [|d s IH]; intros t; simpl; rewrite orb_true_iff, startsWith_spec.
  - split.
    + intros [[post H]|H]; [|discriminate]. exists EmptyString, post. exact H.
    + intros ([|c pre] & post & H); [left; exists post; exact H|discriminate].
  - rewrite IH. split.
    + intros [[post H]|(pre & post & ->)].
      * exists EmptyString, post. exact H.
      * exists (String d pre), post. reflexivity.
    + intros ([|c pre] & post & H).
      * left. exists post. exact H.
      * right. inversion H; subst. exists pre, post. reflexivity.
Qed.

Lemma upper_lower_char c : upper_char (lower_char c) = upper_char c.
Proof. destruct c as [[] [] [] [] [] [] [] []]; reflexivity. Qed.

Lemma upper_upper_char c : upper_char (upper_char c) = upper_char c.
Proof. destruct c as [[] [] [] [] [] [] [] []]; reflexivity. Qed.

Lemma toUpperCase_toLowerCase s : toUpperCase (toLowerCase s) = toUpperCase s.
Proof.
  unfold toUpperCase, toLowerCase.
  induction s; cbn [map_string]; [reflexivity|]. rewrite upper_lower_char. congruence.
Qed.

Lemma toUpperCase_idempotent s : toUpperCase (toUpperCase s) = toUpperCase s.
Proof.
  unfold toUpperCase.
  induction s; cbn [map_string]; [reflexivity|]. rewrite upper_upper_char. congruence.
Qed.

Lemma upper_of_string_or_empty upper s :
  call_case upper (JStr s ||| JStr "") = Ok (upper s).
Proof. destruct s; reflexivity. Qed.

Lemma parseCategory_with_table upper (v n : string) :
  parseCategory_with upper (JStr v) (JStr n)
  = Ok (first_match rules (upper v) (upper n)).
Proof.
  unfold parseCategory_with. rewrite !upper_of_string_or_empty. simpl.
  rewrite !orb_false_r, <- !orb_assoc. reflexivity.
Qed.

Lemma parseCategory_table (v n : string) :
  parseCategory (JStr v) (JStr n)
  = Ok (first_match rules (toUpperCase v) (toUpperCase n)).
Proof. apply parseCategory_with_table. Qed.

Lemma first_match_category table v n :
  Forall (fun rule => In rule.1.1 categories) table ->
  In (first_match table v n) categories.
Proof.
  induction 1 as [|[[category in_field] in_name] rest Hc _ IH]; simpl.
  - unfold categories. simpl. auto 12.
  - destruct (existsb (includes v) in_field || existsb (includes n) in_name); assumption.
Qed.

Lemma is_ascii_toLowerCase s : is_ascii (toLowerCase s) = is_ascii s.
Proof.
  unfold is_ascii, toLowerCase. induction s as [|c s IH]; cbn [map_string all_chars];
    [reflexivity|]. rewrite IH. f_equal.
  destruct c as [[] [] [] [] [] [] [] []]; reflexivity.
Qed.

Lemma is_ascii_toUpperCase s : is_ascii (toUpperCase s) = is_ascii s.
Proof.
  unfold is_ascii, toUpperCase. induction s as [|c s IH]; cbn [map_string all_chars];
    [reflexivity|]. rewrite IH. f_equal.
  destruct c as [[] [] [] [] [] [] [] []]; reflexivity.
Qed.

(** C7.  [upper] is [String.prototype.toUpperCase] of the host, of which
    only its action on ASCII texts is assumed.  On every category string
    and product name the classifier returns one of the ten categories: the
    category of the first rule, in the order PLA, PETG, ABS, ASA, TPU (with
    FLEX), Nylon (NYLON, PA6, PA12), PC, PVB, Wood, one of whose substrings
    occurs in the upper-cased category field or product name (FLEX, PA6 and
    PA12 in the category field only), and Other when none does.  On ASCII
    texts the answer does not depend on the case of the two strings.
    "PA12 Nylon Blend" is Nylon.  The classifier of the record loop is
    the one of ASCII texts. *)
Theorem parseCategory_first_rule_wins (upper : string -> string) :
  (forall s, is_ascii s = true -> upper s = toUpperCase s) ->
  (forall v n : string,
     parseCategory_with upper (JStr v) (JStr n)
     = Ok (first_match rules (upper v) (upper n)))
  /\ (forall v n : string,
        exists category, parseCategory_with upper (JStr v) (JStr n) = Ok category
                         /\ In category categories)
  /\ (forall v n : string,
        is_ascii v = true -> is_ascii n = true ->
        parseCategory_with upper (JStr (toLowerCase v)) (JStr (toLowerCase n))
        = parseCategory_with upper (JStr v) (JStr n)
        /\ parseCategory_with upper (JStr (toUpperCase v)) (JStr (toUpperCase n))
           = parseCategory_with upper (JStr v) (JStr n))
  /\ (forall s t, includes s t = true <-> exists pre post, s = (pre +:+ t +:+ post)%string)
  /\ parseCategory_with upper (JStr "PA12 Nylon Blend") (JStr "") = Ok "Nylon"%string
  /\ parseCategory_with upper (JStr "pa12 blend") (JStr "PolyMide") = Ok "Nylon"%string
  /\ parseCategory_with upper (JStr "") (JStr "PolyMide PA12") = Ok "Other"%string
  /\ parseCategory_with upper (JStr "PC-ABS") (JStr "") = Ok "ABS"%string
  /\ (forall val productName,
        parseCategory val productName = parseCategory_with toUpperCase val productName).
Proof.
  intros Hascii.
  split; [exact (parseCategory_with_table upper)|]. split.
  { intros v n. eexists. split; [apply parseCategory_with_table|].
    apply first_match_category. unfold rules, categories.
    repeat (apply List.Forall_cons; [simpl; auto 12|]). apply List.Forall_nil. }
  split.
  { intros v n Hv Hn. rewrite !parseCategory_with_table.
    rewrite (Hascii (toLowerCase v)), (Hascii (toLowerCase n)),
      (Hascii (toUpperCase v)), (Hascii (toUpperCase n)), (Hascii v Hv), (Hascii n Hn)
      by (rewrite ?is_ascii_toLowerCase, ?is_ascii_toUpperCase; assumption).
    rewrite !toUpperCase_toLowerCase, !toUpperCase_idempotent. split; reflexivity. }
  split; [exact includes_spec|].
  repeat split; rewrite ?parseCategory_with_table, ?Hascii by reflexivity; reflexivity.
Qed.

(** C7 for the host whose upper-casing is the one of ASCII texts. *)
Lemma parseCategory_first_rule_wins_witness :
  (forall v n : string,
     parseCategory_with toUpperCase (JStr v) (JStr n)
     = Ok (first_match rules (toUpperCase v) (toUpperCase n)))
  /\ (forall v n : string,
        exists category, parseCategory_with toUpperCase (JStr v) (JStr n) = Ok category
                         /\ In category categories)
  /\ (forall v n : string,
        is_ascii v = true -> is_ascii n = true ->
        parseCategory_with toUpperCase (JStr (toLowerCase v)) (JStr (toLowerCase n))
        = parseCategory_with toUpperCase (JStr v) (JStr n)
        /\ parseCategory_with toUpperCase (JStr (toUpperCase v)) (JStr (toUpperCase n))
           = parseCategory_with toUpperCase (JStr v) (JStr n))
  /\ (forall s t, includes s t = true <-> exists pre post, s = (pre +:+ t +:+ post)%string)
  /\ parseCategory_with toUpperCase (JStr "PA12 Nylon Blend") (JStr "") = Ok "Nylon"%string
  /\ parseCategory_with toUpperCase (JStr "pa12 blend") (JStr "PolyMide")
     = Ok "Nylon"%string
  /\ parseCategory_with toUpperCase (JStr "") (JStr "PolyMide PA12") = Ok "Other"%string
  /\ parseCategory_with toUpperCase (JStr "PC-ABS") (JStr "") = Ok "ABS"%string
  /\ (forall val productName,
        parseCategory val productName = parseCategory_with toUpperCase val productName).
Proof.
  apply (parseCategory_first_rule_wins toUpperCase). intros s Hs. reflexivity.
Defined.

(** ** C8: the response decoder *)

Lemma truthy_or_else a b : truthy (a ||| b) = truthy a || truthy b.
Proof. unfold or_else. destruct (truthy a) eqn:E; simpl; [exact E|reflexivity]. Qed.

Lemma truthy_product_keys first :
  truthy (get first "product_name" ||| get first "name" ||| get first "hex_code"
          ||| get first "hex" ||| get first "color_name")
  = existsb (fun k => truthy (get first k)) product_keys.
Proof. rewrite !truthy_or_else. simpl. rewrite orb_false_r, <- !orb_assoc. reflexivity. Qed.

(** C8, as the code has it.  An array is returned as it is.  Of an object,
    the first of the properties "data", "products", "items", in that order,
    that holds an array is returned.  Failing that, when the first value of
    the object is itself an object that holds a truthy value (not empty, not
    [null]) under one of the product keys (a name, a hex or a colour name),
    the values of the object are returned; and in every other case nothing
    is found: when the object has no property, when its first value is no
    object, and when the first value holds nothing truthy under the five
    product keys, whatever else it holds.  A value that is neither an array
    nor an object carries no list.  The three shapes of a response carry
    the same records, and [{"foo": "bar"}] carries none. *)
Theorem findArrayInObject_shapes :
  (forall l, findArrayInObject (JArr l) = Some l)
  /\ (forall props l,
        get (JObj props) "data" = JArr l -> findArrayInObject (JObj props) = Some l)
  /\ (forall props l,
        as_array (get (JObj props) "data") = None ->
        get (JObj props) "products" = JArr l -> findArrayInObject (JObj props) = Some l)
  /\ (forall props l,
        as_array (get (JObj props) "data") = None ->
        as_array (get (JObj props) "products") = None ->
        get (JObj props) "items" = JArr l -> findArrayInObject (JObj props) = Some l)
  /\ (forall key first rest k,
        let obj := JObj ((key, first) :: rest) in
        as_array (get obj "data") = None ->
        as_array (get obj "products") = None ->
        as_array (get obj "items") = None ->
        is_object first = true ->
        In k product_keys -> truthy (get first k) = true ->
        findArrayInObject obj = Some (first :: List.map snd rest))
  /\ (forall props,
        as_array (get (JObj props) "data") = None ->
        as_array (get (JObj props) "products") = None ->
        as_array (get (JObj props) "items") = None ->
        findArrayInObject (JObj props)
        = match List.map snd props with
          | first :: _ =>
              if is_object first && existsb (fun k => truthy (get first k)) product_keys
              then Some (List.map snd props)
              else None
          | [] => None
          end)
  /\ (forall key first rest,
        let obj := JObj ((key, first) :: rest) in
        as_array (get obj "data") = None ->
        as_array (get obj "products") = None ->
        as_array (get obj "items") = None ->
        (forall k, In k product_keys -> truthy (get first k) = false) ->
        findArrayInObject obj = None)
  /\ (forall v, is_object v = false -> findArrayInObject v = None)
  /\ findArrayInObject wrapped = Some [record_0; record_1]
  /\ findArrayInObject bare = Some [record_0; record_1]
  /\ findArrayInObject keyed = Some [record_0; record_1]
  /\ findArrayInObject (JObj [("foo"%string, JStr "bar")]) = None.
Proof.
  split; [reflexivity|]. split.
  { intros props l H. unfold findArrayInObject. simpl truthy. simpl negb. cbv iota.
    rewrite H. reflexivity. }
  split.
  { intros props l H1 H2. unfold findArrayInObject. simpl truthy. simpl negb. cbv iota.
    rewrite H1, H2. reflexivity. }
  split.
  { intros props l H1 H2 H3. unfold findArrayInObject. simpl truthy. simpl negb. cbv iota.
    rewrite H1, H2, H3. reflexivity. }
  split.
  { intros key first rest k obj H1 H2 H3 Hobj Hk Ht. unfold findArrayInObject.
    simpl truthy. simpl negb. cbv iota. fold obj. rewrite H1, H2, H3.
    subst obj. cbn [List.map snd]. rewrite Hobj, truthy_product_keys.
    assert (existsb (fun k => truthy (get first k)) product_keys = true) as ->
      by (apply existsb_exists; exists k; split; assumption).
    reflexivity. }
  assert (forall props,
            as_array (get (JObj props) "data") = None ->
            as_array (get (JObj props) "products") = None ->
            as_array (get (JObj props) "items") = None ->
            findArrayInObject (JObj props)
            = match List.map snd props with
              | first :: _ =>
                  if is_object first
                     && existsb (fun k => truthy (get first k)) product_keys
                  then Some (List.map snd props)
                  else None
              | [] => None
              end) as Hdict.
  { intros props H1 H2 H3. unfold findArrayInObject.
    simpl truthy. simpl negb. cbv iota. rewrite H1, H2, H3. cbv zeta.
    destruct (List.map snd props) as [|first values]; [reflexivity|].
    rewrite truthy_product_keys. reflexivity. }
  split; [exact Hdict|]. split.
  { intros key first rest obj H1 H2 H3 Hnone. subst obj. rewrite Hdict by assumption.
    cbn [List.map snd].
    assert (existsb (fun k => truthy (get first k)) product_keys = false) as ->.
    { apply not_true_is_false. intros H. apply existsb_exists in H as (k & Hk & Ht).
      rewrite (Hnone k Hk) in Ht. discriminate. }
    rewrite andb_false_r. reflexivity. }
  split.
  { intros v Hv. destruct v as [| |b|n|s0|l|props]; try discriminate; try reflexivity.
    - unfold findArrayInObject. destruct (negb (truthy (JBool b))); reflexivity.
    - unfold findArrayInObject. destruct (negb (truthy (JNum n))); reflexivity.
    - unfold findArrayInObject. destruct (negb (truthy (JStr s0))); reflexivity. }
  repeat split.
Qed.

(** C8, as stated, fails: the first value of this dictionary of objects has
    a name field and a hex field, the one empty and the other [null], and
    the decoder finds no record list in it. *)
Lemma empty_fields_are_not_product_like :
  has_key (JObj [("name", JStr ""); ("hex", JNull)]%string) "name" = true
  /\ has_key (JObj [("name", JStr ""); ("hex", JNull)]%string) "hex" = true
  /\ findArrayInObject unnamed_first = None.
Proof. repeat split. Qed.

(** ** The record loop *)

Lemma body_unfold st item :
  body st item
  = if truthy item then
      match resolve item with
      | Ok found => Ok ((emit st found).1, (emit st found).2 ++ report (emit st found).1)
      | Throw e => Throw e
      end
    else Ok (st, []).
Proof.
  unfold body. destruct (truthy item); [|reflexivity]. simpl.
  destruct (resolve item) as [found|e]; [|reflexivity]. simpl.
  destruct (emit st found). reflexivity.
Qed.

(** An iteration throws or not whatever the state. *)
Lemma body_raises st item :
  raises item = false ->
  body st item
  = Ok ((emit st (entity_of item)).1,
        (emit st (entity_of item)).2
        ++ if truthy item then report (emit st (entity_of item)).1 else []).
Proof.
  unfold raises, entity_of. rewrite body_unfold.
  destruct (truthy item); simpl; [|reflexivity].
  destruct (resolve item) as [found|e]; [reflexivity|discriminate].
Qed.

Lemma emitted_app evs1 evs2 : emitted (evs1 ++ evs2) = emitted evs1 ++ emitted evs2.
Proof. apply omap_app. Qed.

Lemma emitted_progress status n evs : emitted (Progress status n :: evs) = emitted evs.
Proof. reflexivity. Qed.

Lemma emitted_report st : emitted (report st) = [].
Proof. unfold report. destruct (count st mod 20 =? 0); reflexivity. Qed.

Lemma emitted_report_if (b : bool) st : emitted (if b then report st else []) = [].
Proof. destruct b; [apply emitted_report|reflexivity]. Qed.

Lemma emitted_emit st found :
  emitted (emit st found).2
  = match found with
    | Some p => if bool_decide (Product.id p ∈ processedIds st) then [] else [p]
    | None => []
    end.
Proof. destruct found as [p|]; simpl; [|reflexivity]. case_bool_decide; reflexivity. Qed.

Lemma processedIds_emit st found :
  processedIds (emit st found).1
  = match found with
    | Some p => {[Product.id p]} ∪ processedIds st
    | None => processedIds st
    end.
Proof.
  destruct found as [p|]; simpl; [|reflexivity].
  case_bool_decide as Hin; simpl; [|reflexivity].
  apply set_eq. intros x. rewrite elem_of_union, elem_of_singleton.
  split; [auto|intros [->|]; assumption].
Qed.

Lemma count_emit st found :
  count (emit st found).1 = count st + Z.of_nat (length (emitted (emit st found).2)).
Proof.
  destruct found as [p|]; simpl; [|lia]. case_bool_decide; simpl; lia.
Qed.

Lemma with_id_app id ps qs : with_id id (ps ++ qs) = with_id id ps ++ with_id id qs.
Proof. apply List.filter_app. Qed.

(** What one iteration that does not throw hands over. *)
Lemma body_emitted st item st' evs :
  body st item = Ok (st', evs) ->
  st' = (emit st (entity_of item)).1
  /\ emitted evs = emitted (emit st (entity_of item)).2.
Proof.
  rewrite body_unfold. unfold entity_of.
  destruct (truthy item); [|intros H; inversion H; subst; split; reflexivity].
  destruct (resolve item) as [found|e]; [|discriminate].
  intros H. inversion H; subst. split; [reflexivity|].
  rewrite emitted_app, emitted_report, app_nil_r. reflexivity.
Qed.

(** Once an id is among the processed ids, no entity with that id is
    emitted, whatever the records and however the loop ends. *)
Lemma loop_after_seen id : forall items st,
  id ∈ processedIds st -> with_id id (emitted (loop items st).1) = [].
Proof.
  induction items as [|item items IH]; intros st Hin; simpl; [reflexivity|].
  destruct (body st item) as [[st' evs]|e] eqn:Hb; [|reflexivity].
  apply body_emitted in Hb as [-> Hev].
  specialize (IH (emit st (entity_of item)).1).
  destruct (loop items (emit st (entity_of item)).1) as [evs' r]. simpl in *.
  rewrite emitted_app, with_id_app, Hev, emitted_emit, IH.
  - rewrite app_nil_r. destruct (entity_of item) as [p|]; [|reflexivity].
    case_bool_decide as Hp; [reflexivity|]. simpl.
    destruct (String.eqb_spec (Product.id p) id) as [Heq|]; [|reflexivity].
    rewrite Heq in Hp. contradiction.
  - rewrite processedIds_emit. destruct (entity_of item); set_solver.
Qed.

(** Records that neither throw nor carry the id leave it unprocessed and
    emit nothing for it. *)
Lemma loop_before_first id : forall pre st,
  Forall (fun r => raises r = false
                   /\ (forall q, entity_of r = Some q -> Product.id q <> id)) pre ->
  id ∉ processedIds st ->
  exists evs st',
    loop pre st = (evs, Ok st') /\ (id ∉ processedIds st') /\ with_id id (emitted evs) = [].
Proof.
  induction pre as [|item pre IH]; intros st Hall Hout; simpl.
  - exists [], st. auto.
  - inversion Hall as [|? ? [Hr Hid] Hall']; subst.
    rewrite (body_raises st item Hr).
    destruct (IH (emit st (entity_of item)).1 Hall') as (evs & st' & Hl & Hout' & Hnone).
    { rewrite processedIds_emit. destruct (entity_of item) as [q|] eqn:E; [|assumption].
      specialize (Hid q eq_refl). rewrite elem_of_union, elem_of_singleton.
      intros [Heq|Hin]; [apply Hid; symmetry; exact Heq|contradiction]. }
    rewrite Hl. eexists _, st'. split; [reflexivity|]. split; [assumption|].
    rewrite !emitted_app, !with_id_app, Hnone, emitted_emit, emitted_report_if.
    rewrite !app_nil_r. destruct (entity_of item) as [q|] eqn:E; [|reflexivity].
    case_bool_decide; [reflexivity|]. simpl.
    destruct (String.eqb_spec (Product.id q) id) as [Heq|]; [|reflexivity].
    exfalso. exact (Hid q eq_refl Heq).
Qed.

Lemma loop_app : forall l1 l2 st,
  loop (l1 ++ l2) st
  = match loop l1 st with
    | (evs1, Ok st1) => (evs1 ++ (loop l2 st1).1, (loop l2 st1).2)
    | (evs1, Throw e) => (evs1, Throw e)
    end.
Proof.
  induction l1 as [|item l1 IH]; intros l2 st; simpl.
  - destruct (loop l2 st). reflexivity.
  - destruct (body st item) as [[st' evs]|e]; [|reflexivity].
    rewrite IH. destruct (loop l1 st') as [evs1 [st1|e]]; simpl; [|reflexivity].
    rewrite List.app_assoc. reflexivity.
Qed.

(** ** C5: the first record of an id wins *)

(** The first record of an id and the records after it, where every record
    before it is processed without error. *)
Lemma first_record_of_an_id_wins
    (pre post : list JSValue) (r : JSValue) (p : Product.t) :
  entity_of r = Some p ->
  Forall (fun r' => raises r' = false
                    /\ (forall q, entity_of r' = Some q -> Product.id q <> Product.id p)) pre ->
  with_id (Product.id p) (emitted (loop (pre ++ r :: post) initial).1) = [p].
Proof.
  intros Hr Hpre.
  destruct (loop_before_first (Product.id p) pre initial Hpre)
    as (evs & st & Hl & Hout & Hnone); [set_solver|].
  rewrite loop_app, Hl. cbn [fst snd loop].
  assert (raises r = false) as Hnr.
  { unfold raises, entity_of in *. destruct (truthy r); [|discriminate].
    destruct (resolve r); [reflexivity|discriminate]. }
  rewrite (body_raises st r Hnr), Hr.
  pose proof (loop_after_seen (Product.id p) post (emit st (Some p)).1) as Hpost.
  destruct (loop post (emit st (Some p)).1) as [evs' res]. cbn [fst snd] in *.
  rewrite !emitted_app, !with_id_app, Hnone, Hpost, emitted_emit, emitted_report_if.
  - case_bool_decide; [contradiction|]. simpl. rewrite String.eqb_refl. reflexivity.
  - rewrite processedIds_emit. set_solver.
Qed.

(** C5 at a list whose first record has a number for its category.  The
    second and the third record are valid and normalize to the same id "1";
    the first makes [parseCategory] throw, the loop ends there, and no
    entity of the id "1" is emitted, where the claim has exactly one: the
    entity of the second record. *)
Theorem a_throwing_record_hides_the_first_record_of_an_id :
  entity_of red_record
  = Some (Product.mk "1" (JStr "Unknown Product") (JStr "Red") "Other" "#FF0000"
            (JStr "https://us.polymaker.com") None)
  /\ entity_of red_again
     = Some (Product.mk "1" (JStr "Unknown Product") (JStr "Crimson") "Other" "#DC143C"
               (JStr "https://us.polymaker.com") None)
  /\ loop [numbered_category; red_record; red_again] initial = ([], Throw TypeError)
  /\ fetchPolymakerData (direct_only (JArr [numbered_category; red_record; red_again]))
     = ([Progress "Connecting to API..." 0;
         Log "AllOrigins failed, trying Direct...";
         Progress "Processing 3 items..." 0],
        Throw TypeError)
  /\ with_id "1"
       (emitted (fetchPolymakerData
                   (direct_only (JArr [numbered_category; red_record; red_again]))).1)
     = [].
Proof. repeat split; vm_compute; reflexivity. Qed.

(** ** C9: when the loop reports progress *)

Lemma emit_events st found :
  (emit st found).2 = List.map ProductFound (emitted (emit st found).2)
  /\ (length (emitted (emit st found).2) <= 1)%nat.
Proof.
  destruct found as [p|]; simpl; [|auto]. case_bool_decide; simpl; auto.
Qed.

(** C9, as the code has it.  An iteration over a falsy record does nothing.
    An iteration over any other record that does not throw hands over the
    entity it emits, if any, and then reports progress with the running
    count and yields exactly when that count is a multiple of 20, whether or
    not the iteration emitted an entity. *)
Theorem progress_whenever_count_is_multiple_of_20
    (st st' : LoopState) (item : JSValue) (evs : list event) :
  body st item = Ok (st', evs) ->
  (truthy item = false -> st' = st /\ evs = [])
  /\ (truthy item = true ->
        evs = List.map ProductFound (emitted evs)
              ++ (if count st' mod 20 =? 0
                  then [Progress (loaded (count st')) (count st'); Yield]
                  else [])
        /\ count st' = count st + Z.of_nat (length (emitted evs))
        /\ (length (emitted evs) <= 1)%nat).
Proof.
  intros Hb. rewrite body_unfold in Hb. split; intros Ht; rewrite Ht in Hb.
  - inversion Hb. auto.
  - destruct (resolve item) as [found|e]; [|discriminate].
    inversion Hb as [[Hst Hevs]]. clear Hb.
    destruct (emit_events st found) as [Hmap Hlen].
    rewrite emitted_app, emitted_report, app_nil_r.
    split; [|split; [apply count_emit|exact Hlen]].
    rewrite <- Hmap. reflexivity.
Qed.

(** C9 on a record without a valid hex, in the initial state: the count
    stays 0 and progress is reported. *)
Lemma progress_whenever_count_is_multiple_of_20_witness :
  (truthy colourless_record = false ->
   initial = initial /\ [Progress (loaded 0) 0; Yield] = [])
  /\ (truthy colourless_record = true ->
        [Progress (loaded 0) 0; Yield]
        = List.map ProductFound (emitted [Progress (loaded 0) 0; Yield])
          ++ (if count initial mod 20 =? 0
              then [Progress (loaded (count initial)) (count initial); Yield]
              else [])
        /\ count initial
           = count initial + Z.of_nat (length (emitted [Progress (loaded 0) 0; Yield]))
        /\ (length (emitted [Progress (loaded 0) 0; Yield]) <= 1)%nat).
Proof.
  apply (progress_whenever_count_is_multiple_of_20 initial initial colourless_record
           [Progress (loaded 0) 0; Yield]).
  reflexivity.
Defined.

(** C9, as stated, fails.  Two records without a valid hex bring two
    progress reports although no entity was emitted; and after twenty
    entities a further such record brings a second report of the count 20. *)
Lemma progress_without_a_new_multiple :
  loop [colourless_record; colourless_record] initial
  = ([Progress "Loaded 0 colors..." 0; Yield; Progress "Loaded 0 colors..." 0; Yield],
     Ok initial)
  /\ length (emitted (loop (first_records 20 ++ [colourless_record]) initial).1) = 20%nat
  /\ progress_counts (loop (first_records 20 ++ [colourless_record]) initial).1 = [20; 20].
Proof. repeat split; vm_compute; reflexivity. Qed.

(** ** C6: how a run ends *)

(** C6 at a record whose category is a number.  The record before it is
    emitted; the record itself makes [parseCategory] throw a [TypeError],
    which is none of the three errors of the service and ends the run; the
    valid record after it is never processed. *)
Theorem numeric_category_aborts_the_run :
  fetchPolymakerData (direct_only (JArr [red_record; numbered_category; blue_record]))
  = ([Progress "Connecting to API..." 0;
      Log "AllOrigins failed, trying Direct...";
      Progress "Processing 3 items..." 0;
      ProductFound (Product.mk "1" (JStr "Unknown Product") (JStr "Red") "Other" "#FF0000"
                      (JStr "https://us.polymaker.com") None)],
     Throw TypeError)
  /\ parseCategory (JNum 3) (JStr "Unknown Product") = Throw TypeError
  /\ entity_of blue_record
     = Some (Product.mk "3" (JStr "Unknown Product") (JStr "Blue") "Other" "#0000FF"
               (JStr "https://us.polymaker.com") None).
Proof. repeat split; vm_compute; reflexivity. Qed.

(** The acquisition scenario: the first strategy fails, the second obtains
    a response with one record under "products"; the run emits exactly one
    entity, of category Other and hex #FF0000, and completes. *)
Theorem second_strategy_scenario :
  fetchPolymakerData (direct_only scenario_response)
  = ([Progress "Connecting to API..." 0;
      Log "AllOrigins failed, trying Direct...";
      Progress "Processing 1 items..." 0;
      ProductFound (Product.mk "1" (JStr "X") (JStr "Red") "Other" "#FF0000"
                      (JStr "https://us.polymaker.com") None);
      Progress "Done!" 1],
     Ok ()).
Proof. vm_compute. reflexivity. Qed.

Lemma text_or_else a b :
  text_or_falsy a = true -> text_or_falsy b = true -> text_or_falsy (a ||| b) = true.
Proof. unfold or_else. destruct (truthy a); auto. Qed.

Lemma text_or_default a (d : string) :
  text_or_falsy a = true -> exists s, a ||| JStr d = JStr s.
Proof.
  unfold or_else. destruct (truthy a) eqn:Ht; [|eauto].
  destruct a; simpl in *; try discriminate; eauto; rewrite Ht; discriminate.
Qed.

(** In a record whose text fields hold strings no string method is called
    on anything else. *)
Lemma plain_raises item : plain item -> raises item = false.
Proof.
  intros [Hw _]. unfold raises. destruct (truthy item); [simpl|reflexivity].
  assert (forall k, In k text_keys -> text_or_falsy (get item k) = true) as Hk
    by (intros k Hin; apply (Hw k Hin)).
  destruct (text_or_default
              (get item "product_name" ||| get item "product" ||| get item "title")
              "Unknown Product") as [product Hp].
  { repeat apply text_or_else; apply Hk; simpl; auto 12. }
  destruct (text_or_default
              (get item "color_name" ||| get item "name" ||| get item "color")
              "Unknown Color") as [name Hn].
  { repeat apply text_or_else; apply Hk; simpl; auto 12. }
  destruct (text_or_default
              (get item "material" ||| get item "material_type" ||| get item "category"
               ||| get item "type") "") as [raw Hr].
  { repeat apply text_or_else; apply Hk; simpl; auto 12. }
  unfold resolve. cbv zeta. rewrite Hp, Hn, Hr, parseCategory_table.
  cbn [mbind result_bind].
  destruct (String.eqb (trimmed_hex item) ""); [reflexivity|].
  destruct (valid_hex (with_hash (trimmed_hex item))); [|reflexivity].
  unfold make_id. destruct (truthy (get item "id")); reflexivity.
Qed.

(** A value without fields is a plain record. *)
Lemma plain_without_fields item : (forall k, get item k = JUndefined) -> plain item.
Proof. intros Hget. split; intros k _; rewrite Hget; [split|]; reflexivity. Qed.

(** The fields of a given record, one key after the other. *)
Ltac plain_by_computation :=
  split; intros k Hk; simpl in Hk;
  repeat (destruct Hk as [<-|Hk]; [try split; reflexivity|]); contradiction.

(** A plain record is processed without throwing: in every state of the
    loop its iteration completes, with at most one entity handed over. *)
Theorem a_plain_record_is_processed_without_throwing (st : LoopState) (item : JSValue) :
  plain item ->
  raises item = false
  /\ exists st' evs,
       body st item = Ok (st', evs)
       /\ (length (emitted evs) <= 1)%nat
       /\ count st' = count st + Z.of_nat (length (emitted evs)).
Proof.
  intros Hp. pose proof (plain_raises item Hp) as Hr. split; [exact Hr|].
  rewrite (body_raises st item Hr). eexists _, _. split; [reflexivity|].
  rewrite emitted_app, emitted_report_if, app_nil_r, count_emit.
  split; [apply emit_events|reflexivity].
Qed.

(** The statement on a record with an id, a colour name and a hex, in the
    initial state. *)
Lemma a_plain_record_is_processed_without_throwing_witness :
  raises red_record = false
  /\ exists st' evs,
       body initial red_record = Ok (st', evs)
       /\ (length (emitted evs) <= 1)%nat
       /\ count st' = count initial + Z.of_nat (length (emitted evs)).
Proof.
  apply (a_plain_record_is_processed_without_throwing initial red_record).
  plain_by_computation.
Defined.

Lemma loop_no_raise : forall items st,
  Forall (fun r => raises r = false) items ->
  exists evs st',
    loop items st = (evs, Ok st')
    /\ count st' = count st + Z.of_nat (length (emitted evs)).
Proof.
  induction items as [|item items IH]; intros st Hall; simpl.
  - exists [], st. split; [reflexivity|simpl; lia].
  - inversion Hall as [|? ? Hr Hall']; subst.
    rewrite (body_raises st item Hr).
    destruct (IH (emit st (entity_of item)).1 Hall') as (evs & st' & Hl & Hc).
    rewrite Hl. eexists _, st'. split; [reflexivity|].
    rewrite !emitted_app, !length_app, Hc, count_emit, emitted_report_if.
    simpl. lia.
Qed.

Lemma fetchJsonRobust_logs net : emitted (fetchJsonRobust net).1 = [].
Proof.
  unfold fetchJsonRobust.
  destruct (tryAllOrigins net), (tryDirect net), (tryCorsProxy net); reflexivity.
Qed.

(** When every record of the response is plain, a run ends in one of four
    ways: normally, with at least one entity emitted; or with the error of
    the strategy chain, of the missing product list, or of the absence of
    valid entities, and then with nothing emitted. *)
Theorem run_outcomes (net : Network) :
  (forall rawData items,
     (fetchJsonRobust net).2 = Ok rawData ->
     findArrayInObject rawData = Some items ->
     Forall plain items) ->
  ((fetchPolymakerData net).2 = Ok () /\ emitted (fetchPolymakerData net).1 <> [])
  \/ (((fetchPolymakerData net).2 = Throw unreachable
       \/ (fetchPolymakerData net).2 = Throw no_list
       \/ (fetchPolymakerData net).2 = Throw no_valid)
      /\ emitted (fetchPolymakerData net).1 = []).
Proof.
  intros Hsafe. unfold fetchPolymakerData.
  pose proof (fetchJsonRobust_logs net) as Hlogs.
  assert (forall e, (fetchJsonRobust net).2 = Throw e -> e = unreachable) as Hchain.
  { unfold fetchJsonRobust.
    destruct (tryAllOrigins net), (tryDirect net), (tryCorsProxy net);
      simpl; intros e' H; inversion H; reflexivity. }
  destruct (fetchJsonRobust net) as [logs [rawData|e]]; simpl in *.
  2:{ right. rewrite (Hchain e eq_refl). split; [auto|exact Hlogs]. }
  specialize (Hsafe rawData).
  destruct (findArrayInObject rawData) as [[|item items]|].
  1,3: right; split; [auto|exact Hlogs].
  assert (Forall (fun r => raises r = false) (item :: items)) as Hraise.
  { eapply List.Forall_impl; [|exact (Hsafe _ eq_refl eq_refl)]. exact plain_raises. }
  destruct (loop_no_raise (item :: items) initial Hraise) as (evs & st & Hl & Hc).
  change {| count := 0; processedIds := ∅ |} with initial. rewrite Hl.
  change (count initial) with 0 in Hc.
  destruct (count st =? 0) eqn:E; cbn [fst snd].
  - right. split; [auto|]. apply Z.eqb_eq in E.
    rewrite emitted_progress, emitted_app, Hlogs, emitted_progress.
    destruct (emitted evs); [reflexivity|simpl in Hc; lia].
  - left. split; [reflexivity|]. apply Z.eqb_neq in E.
    rewrite emitted_progress, emitted_app, Hlogs, emitted_progress, emitted_app.
    destruct (emitted evs); [simpl in Hc; lia|discriminate].
Qed.

(** The statement on a response of three plain records, one of them a
    duplicate. *)
Lemma run_outcomes_witness :
  ((fetchPolymakerData (direct_only (JArr [red_record; red_again; colourless_record]))).2
   = Ok ()
   /\ emitted (fetchPolymakerData
                 (direct_only (JArr [red_record; red_again; colourless_record]))).1 <> [])
  \/ (((fetchPolymakerData
          (direct_only (JArr [red_record; red_again; colourless_record]))).2
       = Throw unreachable
       \/ (fetchPolymakerData
             (direct_only (JArr [red_record; red_again; colourless_record]))).2
          = Throw no_list
       \/ (fetchPolymakerData
             (direct_only (JArr [red_record; red_again; colourless_record]))).2
          = Throw no_valid)
      /\ emitted (fetchPolymakerData
                    (direct_only (JArr [red_record; red_again; colourless_record]))).1 = []).
Proof.
  apply (run_outcomes (direct_only (JArr [red_record; red_again; colourless_record]))).
  intros rawData items H1 H2. simpl in H1. inversion H1; subst. simpl in H2.
  inversion H2; subst.
  repeat (apply List.Forall_cons; [plain_by_computation|]). apply List.Forall_nil.
Defined.

(** The first record of an id wins.  In a list whose records up to [r] are
    plain, let [r] normalize to the entity [p] and let no record before it
    normalize to the id of [p].  Then, whatever follows [r] in the list,
    further records of the same id and records that throw included, the
    loop hands over exactly one entity with that id, and it is [p]. *)
Theorem the_first_plain_record_of_an_id_wins
    (pre post : list JSValue) (r : JSValue) (p : Product.t) :
  Forall plain pre -> plain r ->
  entity_of r = Some p ->
  Forall (fun r' => forall q, entity_of r' = Some q -> Product.id q <> Product.id p) pre ->
  with_id (Product.id p) (emitted (loop (pre ++ r :: post) initial).1) = [p].
Proof.
  intros Hpre _ Hr Hfirst.
  assert (Forall (fun r' => raises r' = false
                            /\ (forall q, entity_of r' = Some q
                                          -> Product.id q <> Product.id p)) pre) as Hall.
  { apply List.Forall_forall. intros r' Hin. rewrite List.Forall_forall in Hpre, Hfirst.
    split; [apply plain_raises, Hpre, Hin|apply Hfirst, Hin]. }
  apply first_record_of_an_id_wins; assumption.
Qed.

(** The statement on a list with a record of no valid hex, a [null], and two
    records of the id "1". *)
Lemma the_first_plain_record_of_an_id_wins_witness :
  with_id "1"
    (emitted (loop ([colourless_record; JNull] ++ red_record :: [red_again; blue_record])
                initial).1)
  = [Product.mk "1" (JStr "Unknown Product") (JStr "Red") "Other" "#FF0000"
       (JStr "https://us.polymaker.com") None].
Proof.
  apply (the_first_plain_record_of_an_id_wins [colourless_record; JNull]
           [red_again; blue_record] red_record
           (Product.mk "1" (JStr "Unknown Product") (JStr "Red") "Other" "#FF0000"
              (JStr "https://us.polymaker.com") None)).
  - apply List.Forall_cons; [plain_by_computation|].
    apply List.Forall_cons; [apply plain_without_fields; reflexivity|]. apply List.Forall_nil.
  - plain_by_computation.
  - reflexivity.
  - repeat constructor; simpl; discriminate.
Defined.

(* ===================================================================== *)
(** * Further properties *)
(* ===================================================================== *)

(** ** The entities of a run *)

#[local] Set Warnings "-clear-no-such-hyp".

Lemma emit_ids st found :
  List.NoDup (ids (emitted (emit st found).2))
  /\ (forall i, In i (ids (emitted (emit st found).2)) -> i ∉ processedIds st)
  /\ processedIds (emit st found).1
     = processedIds st ∪ list_to_set (ids (emitted (emit st found).2)).
Proof.
  rewrite emitted_emit, processedIds_emit. destruct found as [p|]; simpl.
  - case_bool_decide as Hin; simpl.
    + split; [constructor|]. split; [contradiction|]. set_solver.
    + split; [repeat constructor; simpl; tauto|].
      split; [intros i [<-|[]]; exact Hin|]. set_solver.
  - split; [constructor|]. split; [contradiction|]. set_solver.
Qed.

(** The loop keeps its books: the ids of the entities it emits are pairwise
    distinct and new, the processed ids grow by exactly them, and the count
    by their number. *)
Lemma loop_ids : forall items st,
  List.NoDup (ids (emitted (loop items st).1))
  /\ (forall i, In i (ids (emitted (loop items st).1)) -> i ∉ processedIds st)
  /\ (forall st', (loop items st).2 = Ok st' ->
        processedIds st'
        = processedIds st ∪ list_to_set (ids (emitted (loop items st).1))
        /\ count st' = count st + Z.of_nat (length (emitted (loop items st).1))).
Proof.
  induction items as [|item items IH]; intros st; simpl.
  - split; [constructor|]. split; [contradiction|].
    intros st' H. inversion H; subst. split; [set_solver|lia].
  - destruct (body st item) as [[st1 evs]|e] eqn:Hb; simpl.
    2:{ split; [constructor|]. split; [contradiction|]. discriminate. }
    apply body_emitted in Hb as [-> Hev].
    destruct (IH (emit st (entity_of item)).1) as (Hnd & Hnew & Hend).
    destruct (emit_ids st (entity_of item)) as (Hnd1 & Hnew1 & Hset1).
    destruct (loop items (emit st (entity_of item)).1) as [evs' r]. simpl in *.
    rewrite emitted_app, Hev. unfold ids in *. rewrite map_app.
    split; [|split].
    + apply List.NoDup_app; [exact Hnd1|exact Hnd|].
      intros i Hi1 Hi2. apply (Hnew i Hi2).
      rewrite Hset1. apply elem_of_union_r, elem_of_list_to_set, list_elem_of_In, Hi1.
    + intros i Hi%in_app_or. destruct Hi as [Hi|Hi]; [apply Hnew1, Hi|].
      intros Hin. apply (Hnew i Hi). rewrite Hset1. apply elem_of_union_l, Hin.
    + intros st' Hr. destruct (Hend st' Hr) as [Hs Hc]. rewrite Hs, Hset1, Hc, count_emit.
      rewrite length_app, list_to_set_app_L. split; [set_solver|lia].
Qed.

(** What a run hands to [onProductFound] is what its loop does. *)
Lemma run_emitted (net : Network) :
  emitted (fetchPolymakerData net).1
  = match (fetchJsonRobust net).2 with
    | Ok rawData =>
        match findArrayInObject rawData with
        | Some items => emitted (loop items initial).1
        | None => []
        end
    | Throw _ => []
    end.
Proof.
  unfold fetchPolymakerData. cbv zeta. pose proof (fetchJsonRobust_logs net) as Hlogs.
  destruct (fetchJsonRobust net) as [logs [rawData|e]]; cbn [fst snd] in *.
  2:{ rewrite emitted_app, Hlogs. reflexivity. }
  destruct (findArrayInObject rawData) as [[|item items]|].
  1,3: cbn [fst snd]; rewrite emitted_app, Hlogs; reflexivity.
  change {| count := 0; processedIds := ∅ |} with initial.
  destruct (loop (item :: items) initial) as [evs [st|e]]; cbn [fst snd].
  2:{ rewrite !emitted_app, Hlogs. reflexivity. }
  destruct (count st =? 0); cbn [fst snd]; rewrite !emitted_app, Hlogs;
    cbn [emitted omap list_omap app]; rewrite ?app_nil_r; reflexivity.
Qed.

(** A run that completes ends with the report of the loop's count. *)
Lemma run_done (net : Network) :
  (fetchPolymakerData net).2 = Ok () ->
  exists rawData items st evs,
    (fetchJsonRobust net).2 = Ok rawData
    /\ findArrayInObject rawData = Some items
    /\ (loop items initial).2 = Ok st
    /\ count st <> 0
    /\ (fetchPolymakerData net).1 = evs ++ [Progress "Done!" (count st)].
Proof.
  unfold fetchPolymakerData. cbv zeta.
  destruct (fetchJsonRobust net) as [logs [rawData|e]]; cbn [fst snd]; [|discriminate].
  destruct (findArrayInObject rawData) as [[|item items]|] eqn:Hf; cbn [fst snd];
    try discriminate.
  change {| count := 0; processedIds := ∅ |} with initial.
  destruct (loop (item :: items) initial) as [evs [st|e]] eqn:Hl; cbn [fst snd];
    [|discriminate].
  destruct (count st =? 0) eqn:E; cbn [fst snd]; [discriminate|]. intros _.
  apply Z.eqb_neq in E.
  exists rawData, (item :: items), st. eexists. rewrite Hl. cbn [snd].
  split; [reflexivity|]. split; [exact Hf|]. split; [reflexivity|].
  split; [exact E|]. rewrite !List.app_assoc. reflexivity.
Qed.

(** In every run, whatever the response and however the run ends, the
    entities handed to [onProductFound] have pairwise distinct ids; and a
    run that completes ends with the report "Done!" of their number, which
    is not zero. *)
Theorem run_emits_distinct_ids (net : Network) :
  List.NoDup (ids (emitted (fetchPolymakerData net).1))
  /\ ((fetchPolymakerData net).2 = Ok () ->
      exists evs,
        (fetchPolymakerData net).1
        = evs ++ [Progress "Done!" (Z.of_nat (length (emitted (fetchPolymakerData net).1)))]
        /\ (0 < length (emitted (fetchPolymakerData net).1))%nat).
Proof.
  split.
  - rewrite run_emitted. destruct (fetchJsonRobust net).2 as [rawData|]; [|constructor].
    destruct (findArrayInObject rawData) as [items|]; [|constructor].
    apply (loop_ids items initial).
  - intros Hok. destruct (run_done net Hok) as (rawData & items & st & evs & Hr & Hf & Hl & Hc & Hev).
    rewrite run_emitted, Hr, Hf.
    destruct (loop_ids items initial) as (_ & _ & Hend).
    destruct (Hend st Hl) as [_ Hn]. change (count initial) with 0 in Hn.
    exists evs. rewrite Hev. split; [f_equal; f_equal; f_equal; lia|lia].
Qed.

(** Every emitted entity comes from a record of the list. *)
Lemma loop_emitted_from : forall items st p,
  In p (emitted (loop items st).1) ->
  exists item, In item items /\ entity_of item = Some p.
Proof.
  induction items as [|item items IH]; intros st p; simpl; [contradiction|].
  destruct (body st item) as [[st1 evs]|e] eqn:Hb; simpl; [|contradiction].
  apply body_emitted in Hb as [-> Hev].
  specialize (IH (emit st (entity_of item)).1 p).
  destruct (loop items (emit st (entity_of item)).1) as [evs' r]. simpl in *.
  rewrite emitted_app, Hev, emitted_emit. intros Hin%in_app_or.
  destruct Hin as [Hin|Hin].
  - exists item. split; [left; reflexivity|].
    destruct (entity_of item) as [q|]; [|contradiction].
    case_bool_decide; [contradiction|]. destruct Hin as [->|[]]. reflexivity.
  - destruct (IH Hin) as (it & Hit & He). exists it. auto.
Qed.

Lemma or_else_truthy a (d : string) : d <> EmptyString -> truthy (a ||| JStr d) = true.
Proof.
  intros Hd. rewrite truthy_or_else. destruct (truthy a); [reflexivity|].
  simpl. destruct d; [contradiction|reflexivity].
Qed.

Lemma parseCategory_ok raw product category :
  parseCategory raw product = Ok category ->
  truthy product = true ->
  In category categories /\ exists s, product = JStr s.
Proof.
  unfold parseCategory, parseCategory_with. intros H Ht.
  destruct (call_case toUpperCase (raw ||| JStr "")) as [v|e]; [|discriminate].
  unfold or_else at 1 in H. rewrite Ht in H.
  destruct product as [| | | |s| |]; try discriminate.
  cbn [mbind result_bind call_case] in H. inversion H; subst category.
  split; [|eauto]. unfold categories.
  repeat match goal with |- context [if ?b then _ else _] => destruct b end;
    simpl; auto 12.
Qed.

Lemma transmission_not_null item : transmission item <> Some "null"%string.
Proof.
  unfold transmission.
  destruct (if present (get item "transmission_distance")
            then Some (toStr (get item "transmission_distance"))
            else if present (get item "td") then Some (toStr (get item "td")) else None)
    as [t|]; [|discriminate].
  destruct (String.eqb_spec t "null"); [discriminate|congruence].
Qed.

Lemma resolve_well_formed item p : resolve item = Ok (Some p) -> well_formed p.
Proof.
  unfold resolve. cbv zeta.
  set (product := get item "product_name" ||| get item "product" ||| get item "title"
                  ||| JStr "Unknown Product").
  set (name := get item "color_name" ||| get item "name" ||| get item "color"
               ||| JStr "Unknown Color").
  set (url := get item "product_url" ||| get item "url" ||| get item "link"
              ||| JStr "https://us.polymaker.com").
  assert (truthy product = true) as Hp by (apply or_else_truthy; discriminate).
  assert (truthy name = true) as Hn by (apply or_else_truthy; discriminate).
  assert (truthy url = true) as Hu by (apply or_else_truthy; discriminate).
  destruct (parseCategory _ product) as [category|e] eqn:Hc; [|discriminate].
  cbn [mbind result_bind].
  destruct (String.eqb (trimmed_hex item) ""); [discriminate|].
  destruct (valid_hex (with_hash (trimmed_hex item))) eqn:Hv; [|discriminate].
  destruct (make_id item product name) as [id|e]; [|discriminate].
  cbn [mbind result_bind]. intros H. inversion H; subst. clear H.
  destruct (parseCategory_ok _ _ _ Hc Hp) as [Hcat Hs].
  unfold well_formed. cbn [Product.hex Product.category Product.product Product.name
                           Product.url Product.td].
  split; [exact Hv|]. split; [exact Hcat|]. split; [exact Hs|].
  split; [exact Hn|]. split; [exact Hu|]. apply transmission_not_null.
Qed.

(** Every entity of every run is well formed: its hex passes the validation
    pattern, its category is one of the ten, its product is a string, its
    name and url are not empty, and its [td] is not the text "null". *)
Theorem run_emits_well_formed_entities (net : Network) :
  Forall well_formed (emitted (fetchPolymakerData net).1).
Proof.
  apply List.Forall_forall. intros p Hp. rewrite run_emitted in Hp.
  destruct (fetchJsonRobust net).2 as [rawData|]; [|contradiction].
  destruct (findArrayInObject rawData) as [items|]; [|contradiction].
  destruct (loop_emitted_from items initial p Hp) as (item & _ & He).
  unfold entity_of in He. destruct (truthy item); [|discriminate].
  destruct (resolve item) as [found|e] eqn:Hr; [|discriminate]. subst found.
  exact (resolve_well_formed item p Hr).
Qed.

(** ** Normalisation and derived ids *)

Lemma filter_string_all f s : all_chars f (filter_string f s) = true.
Proof.
  induction s as [|c s IH]; simpl; [reflexivity|].
  destruct (f c) eqn:E; simpl; [rewrite E|]; exact IH.
Qed.

Lemma filter_string_fixed f s : all_chars f s = true -> filter_string f s = s.
Proof.
  induction s as [|c s IH]; simpl; [reflexivity|].
  intros [Hc Hs]%andb_true_iff. rewrite Hc, (IH Hs). reflexivity.
Qed.

Lemma filter_string_append f s t :
  filter_string f (s +:+ t) = (filter_string f s +:+ filter_string f t)%string.
Proof.
  induction s as [|c s IH]; simpl; [reflexivity|].
  destruct (f c); simpl; rewrite IH; reflexivity.
Qed.

Lemma map_string_append f s t :
  map_string f (s +:+ t) = (map_string f s +:+ map_string f t)%string.
Proof. induction s as [|c s IH]; simpl; [reflexivity|]. rewrite IH. reflexivity. Qed.

Lemma lower_char_alnum c : is_alnum c = true -> lower_char c = c.
Proof. destruct c as [[] [] [] [] [] [] [] []]; try reflexivity; discriminate. Qed.

Lemma lower_upper_char c : lower_char (upper_char c) = lower_char c.
Proof. destruct c as [[] [] [] [] [] [] [] []]; reflexivity. Qed.

Lemma lower_lower_char c : lower_char (lower_char c) = lower_char c.
Proof. destruct c as [[] [] [] [] [] [] [] []]; reflexivity. Qed.

Lemma toLowerCase_alnum s : all_chars is_alnum s = true -> toLowerCase s = s.
Proof.
  unfold toLowerCase. induction s as [|c s IH]; cbn [map_string all_chars]; [reflexivity|].
  intros [Hc Hs]%andb_true_iff. rewrite (lower_char_alnum c Hc), (IH Hs). reflexivity.
Qed.

Lemma toLowerCase_toUpperCase s : toLowerCase (toUpperCase s) = toLowerCase s.
Proof.
  unfold toUpperCase, toLowerCase.
  induction s; cbn [map_string]; [reflexivity|]. rewrite lower_upper_char. congruence.
Qed.

Lemma toLowerCase_idempotent s : toLowerCase (toLowerCase s) = toLowerCase s.
Proof.
  unfold toLowerCase.
  induction s; cbn [map_string]; [reflexivity|]. rewrite lower_lower_char. congruence.
Qed.

Lemma normalize_string s :
  normalize (JStr s) = Ok (filter_string is_alnum (toLowerCase s)).
Proof. reflexivity. Qed.

(** [normalize] on ASCII texts.  The result holds only lower-case letters
    and digits; normalizing it again changes nothing; the case of the input
    does not matter; and neither does any character of the input that is
    not a letter or a digit, wherever it stands. *)
Theorem normalize_is_a_canonical_form (s : string) :
  is_ascii s = true ->
  exists t,
    normalize (JStr s) = Ok t
    /\ all_chars is_alnum t = true
    /\ is_ascii t = true
    /\ normalize (JStr t) = Ok t
    /\ normalize (JStr (toUpperCase s)) = Ok t
    /\ normalize (JStr (toLowerCase s)) = Ok t
    /\ (forall pre c post,
          s = (pre +:+ String c post)%string ->
          is_alnum (lower_char c) = false ->
          normalize (JStr (pre +:+ post)) = Ok t).
Proof.
  intros _. exists (filter_string is_alnum (toLowerCase s)).
  rewrite !normalize_string, toLowerCase_toUpperCase, toLowerCase_idempotent.
  pose proof (filter_string_all is_alnum (toLowerCase s)) as Hall.
  rewrite (toLowerCase_alnum _ Hall), (filter_string_fixed _ _ Hall).
  split; [reflexivity|]. split; [exact Hall|]. split.
  { revert Hall. generalize (filter_string is_alnum (toLowerCase s)). intros t.
    unfold is_ascii. induction t as [|c t IH]; cbn [all_chars]; [reflexivity|].
    intros [Hc Ht]%andb_true_iff. rewrite (IH Ht), andb_true_r.
    destruct c as [[] [] [] [] [] [] [] []]; try reflexivity; discriminate. }
  split; [reflexivity|]. split; [reflexivity|]. split; [reflexivity|].
  intros pre c post -> Hc. rewrite normalize_string. f_equal. unfold toLowerCase.
  rewrite !map_string_append, !filter_string_append. cbn [map_string filter_string].
  rewrite Hc. reflexivity.
Qed.

(** The statement on "PolyLite PLA (Pro)": the normal form is
    "polyliteplapro". *)
Lemma normalize_is_a_canonical_form_witness :
  exists t,
    normalize (JStr "PolyLite PLA (Pro)") = Ok t
    /\ all_chars is_alnum t = true
    /\ is_ascii t = true
    /\ normalize (JStr t) = Ok t
    /\ normalize (JStr (toUpperCase "PolyLite PLA (Pro)")) = Ok t
    /\ normalize (JStr (toLowerCase "PolyLite PLA (Pro)")) = Ok t
    /\ (forall pre c post,
          "PolyLite PLA (Pro)"%string = (pre +:+ String c post)%string ->
          is_alnum (lower_char c) = false ->
          normalize (JStr (pre +:+ post)) = Ok t).
Proof.
  apply (normalize_is_a_canonical_form "PolyLite PLA (Pro)"). reflexivity.
Defined.


Lemma entity_of_resolve item p : entity_of item = Some p -> resolve item = Ok (Some p).
Proof.
  unfold entity_of. destruct (truthy item); [|discriminate].
  destruct (resolve item) as [found|e]; [|discriminate]. congruence.
Qed.




(** ** The acquisition strategies *)

Lemma indexOf_range text c : -1 <= indexOf text c.
Proof.
  induction text as [|d rest IH]; simpl; [lia|].
  destruct (Ascii.eqb d c); [lia|]. destruct (indexOf rest c =? -1); lia.
Qed.

Lemma indexOf_append noise payload c :
  all_chars (fun d => negb (Ascii.eqb d c)) noise = true ->
  indexOf (noise +:+ payload) c
  = if indexOf payload c =? -1 then -1
    else Z.of_nat (String.length noise) + indexOf payload c.
Proof.
  induction noise as [|d noise IH]; cbn [all_chars String.append String.length indexOf].
  - intros _. destruct (indexOf payload c =? -1) eqn:E; [apply Z.eqb_eq in E|]; lia.
  - intros [Hd Hn]%andb_true_iff. apply negb_true_iff in Hd. rewrite Hd, (IH Hn).
    pose proof (indexOf_range payload c).
    destruct (indexOf payload c =? -1) eqn:E; [reflexivity|]. apply Z.eqb_neq in E.
    destruct (_ =? -1) eqn:E'; [apply Z.eqb_eq in E'|]; lia.
Qed.

Lemma drop_chars_append noise payload :
  drop_chars (String.length noise) (noise +:+ payload) = payload.
Proof. induction noise; simpl; auto. Qed.

Lemma bracket_free noise :
  all_chars (fun c => negb (is_bracket c)) noise = true ->
  all_chars (fun d => negb (Ascii.eqb d "[")) noise = true
  /\ all_chars (fun d => negb (Ascii.eqb d "{")) noise = true.
Proof.
  induction noise as [|c noise IH]; simpl; [auto|].
  intros [Hc Hn]%andb_true_iff. destruct (IH Hn) as [-> ->]. unfold is_bracket in Hc.
  apply negb_true_iff, orb_false_iff in Hc as [-> ->]. auto.
Qed.

Lemma indexOf_absent text c :
  all_chars (fun d => negb (Ascii.eqb d c)) text = true -> indexOf text c = -1.
Proof.
  intros H. rewrite <- (append_empty_r text), (indexOf_append _ _ _ H). reflexivity.
Qed.

Lemma indexOf_first noise c rest :
  all_chars (fun d => negb (Ascii.eqb d c)) noise = true ->
  indexOf (noise +:+ String c rest) c = Z.of_nat (String.length noise).
Proof.
  intros H. rewrite (indexOf_append _ _ _ H). cbn [indexOf]. rewrite Ascii.eqb_refl.
  change (0 =? -1) with false. cbv iota. lia.
Qed.

Lemma indexOf_later noise payload c :
  all_chars (fun d => negb (Ascii.eqb d c)) noise = true ->
  indexOf (noise +:+ payload) c = -1
  \/ Z.of_nat (String.length noise) <= indexOf (noise +:+ payload) c.
Proof.
  intros H. rewrite (indexOf_append _ _ _ H). pose proof (indexOf_range payload c).
  destruct (Z.eqb_spec (indexOf payload c) (-1)); [left; reflexivity|right; lia].
Qed.

(** The sanitization of [tryDirect].  Of a body that holds a "[" or a "{",
    what stands before the first of them is dropped and the rest is
    decoded, whatever it is; a body that holds neither is decoded whole.
    So a warning printed in front of the JSON is ignored unless it holds a
    bracket itself, and nothing is dropped after the JSON. *)
Theorem tryDirect_decodes_from_the_first_bracket
    (JSON_parse : string -> result JSValue) (ok_status : Z) :
  (forall noise c rest,
     all_chars (fun c => negb (is_bracket c)) noise = true ->
     is_bracket c = true ->
     Strategy.tryDirect JSON_parse
       (Ok (Response.mk true ok_status (noise +:+ String c rest)))
     = JSON_parse (String c rest))
  /\ (forall text,
        all_chars (fun c => negb (is_bracket c)) text = true ->
        Strategy.tryDirect JSON_parse (Ok (Response.mk true ok_status text))
        = JSON_parse text).
Proof.
  split.
  - intros noise c rest Hn Hc. destruct (bracket_free noise Hn) as [Hsq Hcu].
    unfold Strategy.tryDirect, Strategy.checked.
    cbn [mbind result_bind Response.ok Response.text negb]. cbv zeta.
    pose proof (indexOf_later noise (String c rest) "[" Hsq) as H1.
    pose proof (indexOf_later noise (String c rest) "{" Hcu) as H2.
    assert (indexOf (noise +:+ String c rest) "[" = Z.of_nat (String.length noise)
            \/ indexOf (noise +:+ String c rest) "{" = Z.of_nat (String.length noise))
      as Hfirst.
    { unfold is_bracket in Hc. apply orb_true_iff in Hc as [Hc|Hc];
        apply Ascii.eqb_eq in Hc; subst c;
        [left; apply indexOf_first, Hsq|right; apply indexOf_first, Hcu]. }
    set (jsonStart := indexOf (noise +:+ String c rest) "[") in *.
    set (objStart := indexOf (noise +:+ String c rest) "{") in *.
    assert ((if negb (jsonStart =? -1) && negb (objStart =? -1)
             then Z.min jsonStart objStart
             else if negb (jsonStart =? -1) then jsonStart
                  else if negb (objStart =? -1) then objStart else -1)
            = Z.of_nat (String.length noise)) as ->.
    { destruct (Z.eqb_spec jsonStart (-1)), (Z.eqb_spec objStart (-1));
        cbn [negb andb]; lia. }
    destruct (Z.eqb_spec (Z.of_nat (String.length noise)) (-1)); [lia|]. cbn [negb].
    unfold substring_from. rewrite Nat2Z.id, drop_chars_append. reflexivity.
  - intros text Ht. destruct (bracket_free text Ht) as [Hsq Hcu].
    unfold Strategy.tryDirect, Strategy.checked.
    cbn [mbind result_bind Response.ok Response.text negb]. cbv zeta.
    rewrite (indexOf_absent _ _ Hsq), (indexOf_absent _ _ Hcu). reflexivity.
Qed.

(** When the first strategy obtains a wrapper whose [contents] is a text
    that is no JSON (an error page, say), [tryAllOrigins] resolves with the
    text itself.  The run then does not go on to the other strategies: it
    ends with the error of the missing product list, whatever the other two
    would have obtained. *)
Theorem undecodable_contents_end_the_run
    (JSON_parse : string -> result JSValue) (res : Response.t) (data : JSValue)
    (page : string) (e : exn) (direct corsProxy : result Response.t) :
  Response.ok res = true ->
  JSON_parse (Response.text res) = Ok data ->
  get data "contents" = JStr page ->
  page <> EmptyString ->
  JSON_parse page = Throw e ->
  Strategy.tryAllOrigins JSON_parse (Ok res) = Ok (JStr page)
  /\ fetchPolymakerData (Strategy.network JSON_parse (Ok res) direct corsProxy)
     = ([Progress "Connecting to API..." 0], Throw no_list).
Proof.
  intros Hok Hdata Hcontents Hpage Hparse.
  assert (Strategy.tryAllOrigins JSON_parse (Ok res) = Ok (JStr page)) as Hfirst.
  { unfold Strategy.tryAllOrigins, Strategy.checked.
    cbn [mbind result_bind]. rewrite Hok. cbn [negb mbind result_bind]. rewrite Hdata.
    destruct data as [| | | | | |props]; try discriminate.
    cbn [member mbind result_bind]. rewrite Hcontents. cbn [truthy toStr].
    destruct page; [contradiction|]. cbn [String.eqb negb]. rewrite Hparse. reflexivity. }
  split; [exact Hfirst|].
  unfold fetchPolymakerData, fetchJsonRobust, Strategy.network.
  cbn [tryAllOrigins tryDirect tryCorsProxy]. rewrite Hfirst.
  destruct page; [contradiction|]. reflexivity.
Qed.

(** The statement on a wrapper that reports "Too many requests", while the
    API itself would have answered the direct request. *)
Lemma undecodable_contents_end_the_run_witness :
  Strategy.tryAllOrigins decode_wrapper (Ok (Response.mk true 200 busy_wrapper))
  = Ok (JStr "Too many requests")
  /\ fetchPolymakerData
       (Strategy.network decode_wrapper (Ok (Response.mk true 200 busy_wrapper))
          (Ok (Response.mk true 200 "[]")) (Throw (Error "Failed to fetch")))
     = ([Progress "Connecting to API..." 0], Throw no_list).
Proof.
  apply (undecodable_contents_end_the_run decode_wrapper
           (Response.mk true 200 busy_wrapper)
           (JObj [("contents"%string, JStr "Too many requests")])
           "Too many requests" (Error "Unexpected token")
           (Ok (Response.mk true 200 "[]")) (Throw (Error "Failed to fetch")));
    [reflexivity|reflexivity|reflexivity|discriminate|reflexivity].
Defined.

(** ** The catalogue of the application *)

Lemma contains_In l c : contains l c = true <-> In c l.
Proof.
  unfold contains. rewrite existsb_exists. split.
  - intros (x & Hx & E). apply String.eqb_eq in E. congruence.
  - intros H. exists c. split; [exact H|apply String.eqb_refl].
Qed.

Lemma compare_units_eq a b : compare_units a b = 0 <-> a = b.
Proof.
  unfold compare_units. split.
  - destruct (String.compare a b) eqn:E; try discriminate.
    intros _. apply String.compare_eq_iff, E.
  - intros ->. rewrite string_compare_refl. reflexivity.
Qed.

Lemma compare_units_lt_trans a b c :
  compare_units a b < 0 -> compare_units b c < 0 -> compare_units a c < 0.
Proof.
  destruct compare_units_consistent as [Hsign Htrans]. intros Hab Hbc.
  assert (compare_units a c <= 0) as Hle by (apply (Htrans a b c); lia).
  destruct (Z.eq_dec (compare_units a c) 0) as [E|]; [|lia].
  apply compare_units_eq in E. subst c. apply Hsign in Hab. lia.
Qed.

Lemma insert_string_In a l x : In x (insert_string a l) <-> x = a \/ In x l.
Proof.
  induction l as [|b l IH]; simpl; [intuition auto|].
  destruct (compare_units a b <=? 0); simpl; [intuition auto|].
  rewrite IH. intuition auto.
Qed.

Lemma sort_strings_In l x : In x (sort_strings l) <-> In x l.
Proof.
  induction l as [|a l IH]; simpl; [reflexivity|].
  rewrite insert_string_In, IH. intuition auto.
Qed.

Lemma insert_string_ascending a l :
  ascending l -> ~ In a l -> ascending (insert_string a l).
Proof.
  unfold ascending. induction l as [|b l IH]; intros Hs Ha; simpl.
  - repeat constructor.
  - inversion Hs as [|? ? Hl Hb]; subst.
    destruct (compare_units_consistent) as [Hsign _].
    destruct (compare_units a b <=? 0) eqn:E.
    + apply Z.leb_le in E.
      assert (compare_units a b < 0) as Hlt.
      { destruct (Z.eq_dec (compare_units a b) 0) as [E0|]; [|lia].
        apply compare_units_eq in E0. subst b. exfalso. apply Ha. left. reflexivity. }
      constructor; [exact Hs|]. constructor; [exact Hlt|].
      eapply List.Forall_impl; [|exact Hb]. intros c Hc.
      exact (compare_units_lt_trans a b c Hlt Hc).
    + apply Z.leb_gt in E. constructor.
      * apply IH; [exact Hl|]. intros H. apply Ha. right. exact H.
      * apply List.Forall_forall. intros x Hx. apply insert_string_In in Hx as [->|Hx].
        -- apply Hsign. exact E.
        -- rewrite List.Forall_forall in Hb. apply Hb, Hx.
Qed.

Lemma sort_strings_ascending l : List.NoDup l -> ascending (sort_strings l).
Proof.
  induction 1 as [|a l Ha _ IH]; simpl; [constructor|].
  apply insert_string_ascending; [exact IH|]. rewrite sort_strings_In. exact Ha.
Qed.

Lemma ascending_NoDup l : ascending l -> List.NoDup l.
Proof.
  induction 1 as [|a l _ IH Ha]; constructor; [|exact IH].
  intros Hin. rewrite List.Forall_forall in Ha. specialize (Ha a Hin).
  rewrite (proj2 (compare_units_eq a a) eq_refl) in Ha. lia.
Qed.

(** A set of strings has one ascending arrangement. *)
Lemma ascending_unique : forall l1 l2,
  ascending l1 -> ascending l2 -> (forall x, In x l1 <-> In x l2) -> l1 = l2.
Proof.
  destruct compare_units_consistent as [Hsign _].
  induction l1 as [|a l1 IH]; intros [|b l2] S1 S2 Hsame.
  - reflexivity.
  - exfalso. apply (proj2 (Hsame b)). left. reflexivity.
  - exfalso. apply (proj1 (Hsame a)). left. reflexivity.
  - pose proof (ascending_NoDup _ S1) as N1. pose proof (ascending_NoDup _ S2) as N2.
    inversion S1 as [|? ? S1' Ha]; subst. inversion S2 as [|? ? S2' Hb]; subst.
    rewrite List.Forall_forall in Ha, Hb.
    assert (a = b) as ->.
    { destruct (proj1 (Hsame a) (or_introl eq_refl)) as [E|Hin]; [auto|].
      destruct (proj2 (Hsame b) (or_introl eq_refl)) as [E|Hin']; [auto|].
      specialize (Ha b Hin'). specialize (Hb a Hin). apply Hsign in Ha. lia. }
    f_equal. apply IH; [exact S1'|exact S2'|].
    apply NoDup_cons_iff in N1 as [Na1 _]. apply NoDup_cons_iff in N2 as [Nb2 _].
    intros x. split; intros Hx.
    + destruct (proj1 (Hsame x) (or_intror Hx)) as [E|H]; [subst x; contradiction|exact H].
    + destruct (proj2 (Hsame x) (or_intror Hx)) as [E|H]; [subst x; contradiction|exact H].
Qed.

Lemma fold_handle_products evs : forall st,
  App.products (fold_left App.handle evs st)
  = fold_left App.addProduct (emitted evs) (App.products st).
Proof.
  induction evs as [|ev evs IH]; intros st; [reflexivity|].
  cbn [fold_left]. rewrite IH. destruct ev; reflexivity.
Qed.

Lemma fold_handle_selected evs : forall st,
  App.selectedCategories (fold_left App.handle evs st)
  = fold_left App.autoSelect (emitted evs) (App.selectedCategories st).
Proof.
  induction evs as [|ev evs IH]; intros st; [reflexivity|].
  cbn [fold_left]. rewrite IH. destruct ev; reflexivity.
Qed.

Lemma addProduct_fresh prev p :
  ~ In (Product.id p) (ids prev) -> App.addProduct prev p = prev ++ [p].
Proof.
  intros Hp. unfold App.addProduct.
  destruct (existsb _ prev) eqn:E; [|reflexivity]. exfalso. apply Hp.
  apply existsb_exists in E as (q & Hq & E). apply String.eqb_eq in E.
  rewrite <- E. apply in_map, Hq.
Qed.

Lemma fold_addProduct_distinct ps : forall prev,
  List.NoDup (ids (prev ++ ps)) -> fold_left App.addProduct ps prev = prev ++ ps.
Proof.
  induction ps as [|p ps IH]; intros prev Hnd; simpl; [rewrite app_nil_r; reflexivity|].
  rewrite addProduct_fresh.
  - rewrite IH; rewrite <- List.app_assoc; [reflexivity|exact Hnd].
  - unfold ids in Hnd. rewrite map_app in Hnd. simpl in Hnd.
    apply NoDup_remove_2 in Hnd. intros H. apply Hnd, in_or_app. left. exact H.
Qed.

Lemma fold_handle_progress evs status n st :
  App.progressText (fold_left App.handle (evs ++ [Progress status n]) st) = status.
Proof. rewrite fold_left_app. reflexivity. Qed.

(** The catalogue of the application after [initDataFetch], from any state
    and however the run ends: it holds exactly the entities the run handed
    over, in their order, so the duplicate test of the application never
    rejects one, and their ids are pairwise distinct.  After a run that
    completes the progress text is "Done!". *)
Theorem initDataFetch_loads_what_the_run_emits (net : Network) (st : App.state) :
  App.products (App.initDataFetch net st) = emitted (fetchPolymakerData net).1
  /\ List.NoDup (ids (App.products (App.initDataFetch net st)))
  /\ ((fetchPolymakerData net).2 = Ok () ->
      App.progressText (App.initDataFetch net st) = "Done!"%string).
Proof.
  assert (List.NoDup (ids (emitted (fetchPolymakerData net).1))) as Hnd.
  { rewrite run_emitted. destruct (fetchJsonRobust net).2 as [rawData|]; [|constructor].
    destruct (findArrayInObject rawData) as [items|]; [|constructor].
    apply (loop_ids items initial). }
  assert (App.products (App.initDataFetch net st) = emitted (fetchPolymakerData net).1)
    as Hp.
  { unfold App.initDataFetch. rewrite fold_handle_products. cbn [App.products].
    apply (fold_addProduct_distinct _ []). exact Hnd. }
  split; [exact Hp|]. split; [rewrite Hp; exact Hnd|].
  intros Hok. destruct (run_done net Hok) as (_ & _ & st' & evs & _ & _ & _ & _ & Hev).
  unfold App.initDataFetch. rewrite Hev. apply fold_handle_progress.
Qed.

Lemma fold_autoSelect_keeps ps : forall sel c,
  In c sel -> In c (fold_left App.autoSelect ps sel).
Proof.
  induction ps as [|p ps IH]; intros sel c Hc; simpl; [exact Hc|].
  apply IH. unfold App.autoSelect.
  destruct (contains sel (Product.category p)) eqn:E; cbn [negb]; [exact Hc|].
  apply sort_strings_In, in_or_app. left. exact Hc.
Qed.

(** During a load.  At every moment of a load, that is after any initial
    part of what the run does, the catalogue holds the entities handed over
    so far, and it is an initial part of the catalogue at the end: products
    are appended, never removed and never reordered; and a category that is
    selected at that moment is still selected at the end. *)
Theorem the_catalogue_grows_by_appending
    (net : Network) (st : App.state) (so_far rest : list event) :
  (fetchPolymakerData net).1 = so_far ++ rest ->
  let now :=
    fold_left App.handle so_far
      (App.mk [] (App.selectedCategories st) "Initializing API...") in
  App.products now = emitted so_far
  /\ App.products (App.initDataFetch net st) = App.products now ++ emitted rest
  /\ (forall c, In c (App.selectedCategories now) ->
                In c (App.selectedCategories (App.initDataFetch net st))).
Proof.
  intros Hrun now.
  assert (List.NoDup (ids (emitted so_far ++ emitted rest))) as Hnd.
  { rewrite <- emitted_app, <- Hrun, run_emitted.
    destruct (fetchJsonRobust net).2 as [rawData|]; [|constructor].
    destruct (findArrayInObject rawData) as [items|]; [|constructor].
    apply (loop_ids items initial). }
  assert (App.products now = emitted so_far) as Hnow.
  { subst now. rewrite fold_handle_products. cbn [App.products].
    apply (fold_addProduct_distinct _ []). simpl.
    unfold ids in Hnd |- *. rewrite map_app in Hnd. eapply NoDup_app_remove_r, Hnd. }
  split; [exact Hnow|]. split.
  - rewrite Hnow. unfold App.initDataFetch. rewrite Hrun, fold_handle_products.
    cbn [App.products]. rewrite emitted_app.
    apply (fold_addProduct_distinct _ []). exact Hnd.
  - intros c Hc. unfold App.initDataFetch. rewrite Hrun, fold_left_app.
    fold now. rewrite fold_handle_selected. apply fold_autoSelect_keeps, Hc.
Qed.

(** The statement after the first four things the run on two records does:
    the catalogue holds the first entity. *)
Lemma the_catalogue_grows_by_appending_witness :
  let run := (fetchPolymakerData (direct_only numbered_name_response)).1 in
  let now :=
    fold_left App.handle (firstn 4 run)
      (App.mk [] (App.selectedCategories App.start) "Initializing API...") in
  App.products now = emitted (firstn 4 run)
  /\ App.products (App.initDataFetch (direct_only numbered_name_response) App.start)
     = App.products now ++ emitted (skipn 4 run)
  /\ (forall c, In c (App.selectedCategories now) ->
                In c (App.selectedCategories
                        (App.initDataFetch (direct_only numbered_name_response) App.start))).
Proof.
  apply (the_catalogue_grows_by_appending (direct_only numbered_name_response) App.start
           (firstn 4 (fetchPolymakerData (direct_only numbered_name_response)).1)
           (skipn 4 (fetchPolymakerData (direct_only numbered_name_response)).1)).
  reflexivity.
Defined.

Lemma autoSelect_In sel p c :
  In c (App.autoSelect sel p) <-> In c sel \/ c = Product.category p.
Proof.
  unfold App.autoSelect. destruct (contains sel (Product.category p)) eqn:E; cbn [negb].
  - apply contains_In in E. split; [auto|]. intros [H| ->]; assumption.
  - rewrite sort_strings_In, in_app_iff. simpl. intuition auto.
Qed.

Lemma fold_autoSelect_In ps : forall sel c,
  In c (fold_left App.autoSelect ps sel) <-> In c sel \/ In c (categories_of ps).
Proof.
  induction ps as [|p ps IH]; intros sel c; simpl; [intuition auto|].
  rewrite IH, autoSelect_In. intuition auto.
Qed.

Lemma autoSelect_ascending sel p : ascending sel -> ascending (App.autoSelect sel p).
Proof.
  intros Hs. unfold App.autoSelect.
  destruct (contains sel (Product.category p)) eqn:E; cbn [negb]; [exact Hs|].
  apply sort_strings_ascending, List.NoDup_app.
  - apply ascending_NoDup, Hs.
  - repeat constructor. simpl. tauto.
  - intros x Hx [<-|[]]. apply contains_In in Hx. congruence.
Qed.

Lemma fold_autoSelect_ascending ps : forall sel,
  ascending sel -> ascending (fold_left App.autoSelect ps sel).
Proof.
  induction ps as [|p ps IH]; intros sel Hs; simpl; [exact Hs|].
  apply IH, autoSelect_ascending, Hs.
Qed.

Lemma bump_keys c counts :
  List.map fst (App.bump c counts)
  = if contains (List.map fst counts) c then List.map fst counts
    else List.map fst counts ++ [c].
Proof.
  induction counts as [|[k n] counts IH]; [reflexivity|].
  cbn [App.bump List.map fst contains existsb].
  rewrite (String.eqb_sym c k). destruct (String.eqb k c); cbn [orb]; [reflexivity|].
  cbn [List.map fst]. rewrite IH. fold (contains (List.map fst counts) c).
  destruct (contains (List.map fst counts) c); reflexivity.
Qed.

Lemma fold_bump_keys ps : forall counts,
  List.NoDup (List.map fst counts) ->
  List.NoDup (List.map fst
                (fold_left (fun counts p => App.bump (Product.category p) counts) ps counts))
  /\ forall c,
       In c (List.map fst
               (fold_left (fun counts p => App.bump (Product.category p) counts) ps counts))
       <-> In c (List.map fst counts) \/ In c (categories_of ps).
Proof.
  induction ps as [|p ps IH]; intros counts Hnd; simpl; [intuition auto|].
  assert (List.NoDup (List.map fst (App.bump (Product.category p) counts))
          /\ forall c, In c (List.map fst (App.bump (Product.category p) counts))
                       <-> In c (List.map fst counts) \/ c = Product.category p)
    as [Hnd' Hin].
  { rewrite bump_keys.
    destruct (contains (List.map fst counts) (Product.category p)) eqn:E.
    - apply contains_In in E. split; [exact Hnd|]. intros c. split; [auto|].
      intros [H| ->]; assumption.
    - split.
      + apply List.NoDup_app; [exact Hnd|repeat constructor; simpl; tauto|].
        intros x Hx [<-|[]]. apply contains_In in Hx. congruence.
      + intros c. rewrite in_app_iff. simpl. intuition auto. }
  destruct (IH _ Hnd') as [Hnd'' Hin'']. split; [exact Hnd''|].
  intros c. rewrite Hin'', Hin. intuition auto.
Qed.

Lemma uniqueCategories_spec ps :
  ascending (App.uniqueCategories ps)
  /\ forall c, In c (App.uniqueCategories ps) <-> In c (categories_of ps).
Proof.
  unfold App.uniqueCategories, App.categoryCounts.
  destruct (fold_bump_keys ps [] (List.NoDup_nil _)) as [Hnd Hin]. split.
  - apply sort_strings_ascending, Hnd.
  - intros c. rewrite sort_strings_In, Hin. simpl. tauto.
Qed.

Lemma shown_blank sel p :
  In (Product.category p) sel -> App.shown sel EmptyString p = Ok true.
Proof.
  intros Hp. unfold App.shown. rewrite (proj2 (contains_In _ _) Hp). reflexivity.
Qed.

Lemma filter_with_blank sel ps :
  Forall (fun p => In (Product.category p) sel) ps ->
  App.filter_with (App.shown sel EmptyString) ps = Ok ps.
Proof.
  induction 1 as [|p ps Hp _ IH]; [reflexivity|].
  cbn [App.filter_with]. rewrite (shown_blank sel p Hp), IH. reflexivity.
Qed.

(** What a load does to the category filter.  A category is selected after
    it exactly when it was selected before or is the category of a loaded
    product; so with a blank search box every loaded product is visible.
    After the first load, which starts with no selection, the selection is
    the list of the sorted categories without repetition, the same that
    "select all" sets. *)
Theorem a_load_selects_every_category_it_finds (net : Network) (st : App.state) :
  (forall c,
     In c (App.selectedCategories (App.initDataFetch net st))
     <-> In c (App.selectedCategories st)
         \/ In c (categories_of (App.products (App.initDataFetch net st))))
  /\ (forall searchQuery,
        trim (toLowerCase searchQuery) = EmptyString ->
        App.visibleProductIds (App.products (App.initDataFetch net st))
          (App.selectedCategories (App.initDataFetch net st)) searchQuery
        = Ok (list_to_set (ids (App.products (App.initDataFetch net st)))))
  /\ (App.selectedCategories st = [] ->
      App.selectedCategories (App.initDataFetch net st)
      = App.handleSelectAllCategories (App.products (App.initDataFetch net st))
      /\ ascending (App.selectedCategories (App.initDataFetch net st))).
Proof.
  assert (App.products (App.initDataFetch net st) = emitted (fetchPolymakerData net).1)
    as Hp.
  { unfold App.initDataFetch. rewrite fold_handle_products. cbn [App.products].
    apply (fold_addProduct_distinct _ []).
    rewrite run_emitted. destruct (fetchJsonRobust net).2 as [rawData|]; [|constructor].
    destruct (findArrayInObject rawData) as [items|]; [|constructor].
    apply (loop_ids items initial). }
  assert (App.selectedCategories (App.initDataFetch net st)
          = fold_left App.autoSelect (emitted (fetchPolymakerData net).1)
              (App.selectedCategories st)) as Hs.
  { unfold App.initDataFetch. rewrite fold_handle_selected. reflexivity. }
  rewrite Hp, Hs.
  set (ps := emitted (fetchPolymakerData net).1). clearbody ps.
  set (sel := App.selectedCategories st). clearbody sel. clear.
  split; [|split].
  - intros c. apply fold_autoSelect_In.
  - intros q Hq. unfold App.visibleProductIds. rewrite Hq.
    destruct (fold_left App.autoSelect ps sel) as [|c0 sel'] eqn:E.
    + destruct ps as [|p ps]; [reflexivity|]. exfalso.
      assert (In (Product.category p) (fold_left App.autoSelect (p :: ps) sel)) as H
        by (apply fold_autoSelect_In; right; left; reflexivity).
      rewrite E in H. exact H.
    + cbn [length Nat.eqb]. rewrite <- E, filter_with_blank; [reflexivity|].
      apply List.Forall_forall. intros p Hp. apply fold_autoSelect_In. right.
      apply in_map, Hp.
  - intros ->. assert (ascending (fold_left App.autoSelect ps [])) as Hasc
      by (apply fold_autoSelect_ascending; constructor).
    split; [|exact Hasc]. unfold App.handleSelectAllCategories.
    destruct (uniqueCategories_spec ps) as [Hu Hin].
    apply ascending_unique; [exact Hasc|exact Hu|].
    intros c. rewrite fold_autoSelect_In, Hin. simpl. tauto.
Qed.

(** ** The search and the category filter *)

Lemma filter_with_Ok {A} (f : A -> result bool) (g : A -> bool) (l : list A) :
  Forall (fun a => f a = Ok (g a)) l -> App.filter_with f l = Ok (List.filter g l).
Proof.
  induction 1 as [|a l Ha _ IH]; [reflexivity|].
  cbn [App.filter_with List.filter]. rewrite Ha, IH. reflexivity.
Qed.

Lemma filter_with_ext {A} (f g : A -> result bool) (l : list A) :
  (forall a, f a = g a) -> App.filter_with f l = App.filter_with g l.
Proof.
  intros H. induction l as [|a l IH]; [reflexivity|].
  cbn [App.filter_with]. rewrite H, IH. reflexivity.
Qed.


Lemma includes_empty s : includes s EmptyString = true.
Proof. destruct s; reflexivity. Qed.

Lemma shown_text sel query p :
  is_text (Product.product p) = true -> is_text (Product.name p) = true ->
  App.shown sel query p = Ok (contains sel (Product.category p) && matches query p).
Proof.
  unfold App.shown, matches. destruct (Product.product p), (Product.name p);
    try discriminate. intros _ _.
  destruct (contains sel (Product.category p)); cbn [negb andb]; [|reflexivity].
  destruct query as [|c query].
  - cbn [String.eqb negb existsb text_of]. rewrite includes_empty. reflexivity.
  - cbn [String.eqb negb mbind result_bind call_toLowerCase existsb text_of].
    rewrite orb_false_r.
    destruct (includes (toLowerCase s) _), (includes (toLowerCase s0) _),
      (includes (toLowerCase (Product.category p)) _); reflexivity.
Qed.


Lemma trimStart_spaces ws : all_chars is_space ws = true -> trimStart ws = EmptyString.
Proof.
  induction ws as [|c ws IH]; cbn [all_chars trimStart]; [reflexivity|].
  intros [Hc Hws]%andb_true_iff. rewrite Hc. exact (IH Hws).
Qed.

Lemma trimEnd_spaces ws : all_chars is_space ws = true -> trimEnd ws = EmptyString.
Proof.
  induction ws as [|c ws IH]; cbn [all_chars trimEnd]; [reflexivity|].
  intros [Hc Hws]%andb_true_iff. rewrite (IH Hws), Hc. reflexivity.
Qed.

Lemma trimEnd_append s ws :
  all_chars is_space ws = true -> trimEnd (s +:+ ws) = trimEnd s.
Proof.
  intros Hws. induction s as [|c s IH]; cbn [String.append trimEnd];
    [apply trimEnd_spaces, Hws|]. rewrite IH. reflexivity.
Qed.

Lemma trimStart_append ws s :
  all_chars is_space ws = true -> trimStart (ws +:+ s) = trimStart s.
Proof.
  induction ws as [|c ws IH]; cbn [all_chars String.append trimStart]; [reflexivity|].
  intros [Hc Hws]%andb_true_iff. rewrite Hc. exact (IH Hws).
Qed.

(** [trim] removes the white space around a text. *)
Lemma trim_padded before s after :
  all_chars is_space before = true -> all_chars is_space after = true ->
  trim (before +:+ s +:+ after) = trim s.
Proof.
  intros Hb Ha. unfold trim. rewrite (trimStart_append _ _ Hb).
  induction s as [|c s IH]; cbn [String.append trimStart].
  - rewrite (trimStart_spaces _ Ha). reflexivity.
  - destruct (is_space c); [exact IH|].
    change (String c (s +:+ after)) with (String c s +:+ after)%string.
    apply trimEnd_append, Ha.
Qed.

Lemma toLowerCase_spaces ws : all_chars is_space ws = true -> toLowerCase ws = ws.
Proof.
  unfold toLowerCase. induction ws as [|c ws IH]; cbn [all_chars map_string];
    [reflexivity|]. intros [Hc Hws]%andb_true_iff. rewrite (IH Hws). f_equal.
  destruct c as [[] [] [] [] [] [] [] []]; try reflexivity; discriminate.
Qed.

(** The search, on a catalogue whose product names, colour names and
    categories are ASCII texts, for an ASCII query.  The visible ids are
    those of the products whose category is selected and in whose product,
    colour name or category the query occurs, once the query is trimmed and
    the case of letters is set aside on both sides.  The result is the same
    for the query in upper case, and for the query with white space before
    and after it.  A blank query occurs in everything; no selection shows
    nothing. *)
Theorem visibleProductIds_are_the_selected_matches
    (products : list Product.t) (selectedCategories : list string) (searchQuery : string) :
  Forall (fun p => ascii_text (Product.product p) = true
                   /\ ascii_text (Product.name p) = true
                   /\ is_ascii (Product.category p) = true) products ->
  is_ascii searchQuery = true ->
  (exists shown_ids,
     App.visibleProductIds products selectedCategories searchQuery = Ok shown_ids
     /\ forall id,
          id ∈ shown_ids
          <-> exists p, In p products /\ Product.id p = id
                        /\ In (Product.category p) selectedCategories
                        /\ matches (trim (toLowerCase searchQuery)) p = true)
  /\ App.visibleProductIds products selectedCategories (toUpperCase searchQuery)
     = App.visibleProductIds products selectedCategories searchQuery
  /\ (forall before after,
        all_chars is_space before = true -> all_chars is_space after = true ->
        App.visibleProductIds products selectedCategories
          (before +:+ searchQuery +:+ after)
        = App.visibleProductIds products selectedCategories searchQuery)
  /\ (forall p, matches EmptyString p = true).
Proof.
  intros Hascii _.
  assert (Forall (fun p => is_text (Product.product p) = true
                           /\ is_text (Product.name p) = true) products) as Htext.
  { eapply List.Forall_impl; [|exact Hascii]. intros p (Hp & Hn & _).
    destruct (Product.product p), (Product.name p); try discriminate. auto. }
  split; [|split; [|split]].
  - unfold App.visibleProductIds.
    destruct selectedCategories as [|c0 sel'] eqn:Esel.
    + exists ∅. split; [reflexivity|]. intros id. split; [set_solver|].
      intros (p & _ & _ & [] & _).
    + cbn [length Nat.eqb]. rewrite <- Esel. clear Esel.
      set (query := trim (toLowerCase searchQuery)).
      rewrite (filter_with_Ok _
                 (fun p => contains selectedCategories (Product.category p)
                           && matches query p)).
      2:{ eapply List.Forall_impl; [|exact Htext]. intros p [Hp Hn].
          apply shown_text; assumption. }
      eexists. split; [reflexivity|]. intros id.
      rewrite elem_of_list_to_set, list_elem_of_In, in_map_iff. split.
      * intros (p & Hid & Hin). apply filter_In in Hin as [Hin Hk].
        apply andb_true_iff in Hk as [Hc Hm]. apply contains_In in Hc. eauto 6.
      * intros (p & Hin & Hid & Hc & Hm). exists p. split; [exact Hid|].
        apply filter_In. split; [exact Hin|].
        rewrite (proj2 (contains_In _ _) Hc), Hm. reflexivity.
  - unfold App.visibleProductIds. rewrite toLowerCase_toUpperCase. reflexivity.
  - intros before after Hb Ha. unfold App.visibleProductIds, toLowerCase.
    rewrite !map_string_append. fold (toLowerCase before) (toLowerCase searchQuery)
      (toLowerCase after).
    rewrite (toLowerCase_spaces _ Hb), (toLowerCase_spaces _ Ha), (trim_padded _ _ _ Hb Ha).
    reflexivity.
  - intros p. unfold matches. cbn [existsb]. rewrite includes_empty. reflexivity.
Qed.

(** The statement on two entries and the query " SAMPLE ". *)
Lemma visibleProductIds_are_the_selected_matches_witness :
  (exists shown_ids,
     App.visibleProductIds [black; light_grey] ["PLA"%string] " SAMPLE " = Ok shown_ids
     /\ forall id,
          id ∈ shown_ids
          <-> exists p, In p [black; light_grey] /\ Product.id p = id
                        /\ In (Product.category p) ["PLA"%string]
                        /\ matches (trim (toLowerCase " SAMPLE ")) p = true)
  /\ App.visibleProductIds [black; light_grey] ["PLA"%string] (toUpperCase " SAMPLE ")
     = App.visibleProductIds [black; light_grey] ["PLA"%string] " SAMPLE "
  /\ (forall before after,
        all_chars is_space before = true -> all_chars is_space after = true ->
        App.visibleProductIds [black; light_grey] ["PLA"%string]
          (before +:+ " SAMPLE " +:+ after)
        = App.visibleProductIds [black; light_grey] ["PLA"%string] " SAMPLE ")
  /\ (forall p, matches EmptyString p = true).
Proof.
  apply (visibleProductIds_are_the_selected_matches [black; light_grey] ["PLA"%string]
           " SAMPLE ").
  - repeat constructor.
  - reflexivity.
Defined.



Lemma resolve_names item p :
  resolve item = Ok (Some p) ->
  Product.product p = get item "product_name" ||| get item "product" ||| get item "title"
                      ||| JStr "Unknown Product"
  /\ Product.name p = get item "color_name" ||| get item "name" ||| get item "color"
                      ||| JStr "Unknown Color".
Proof.
  unfold resolve. cbv zeta.
  destruct (parseCategory _ _) as [category|e]; [|discriminate].
  cbn [mbind result_bind].
  destruct (String.eqb (trimmed_hex item) ""); [discriminate|].
  destruct (valid_hex (with_hash (trimmed_hex item))); [|discriminate].
  destruct (make_id item _ _) as [id|e]; [|discriminate].
  cbn [mbind result_bind]. intros H. inversion H; subst. split; reflexivity.
Qed.

Lemma well_typed_texts item p :
  well_typed item -> entity_of item = Some p ->
  is_text (Product.product p) = true /\ is_text (Product.name p) = true.
Proof.
  intros Hwt He. apply entity_of_resolve, resolve_names in He as [-> ->].
  assert (forall k, In k text_keys -> text_or_falsy (get item k) = true) as Hk
    by exact Hwt.
  split.
  - destruct (text_or_default
                (get item "product_name" ||| get item "product" ||| get item "title")
                "Unknown Product") as [s ->]; [|reflexivity].
    repeat apply text_or_else; apply Hk; simpl; auto 12.
  - destruct (text_or_default
                (get item "color_name" ||| get item "name" ||| get item "color")
                "Unknown Color") as [s ->]; [|reflexivity].
    repeat apply text_or_else; apply Hk; simpl; auto 12.
Qed.

(** Conversely, when the name fields of every record of the response hold
    texts or nothing, every loaded product and colour name is a text, and
    no search throws: for every selection and every query the visible ids
    are computed. *)
Theorem search_is_safe_after_loading_texts
    (net : Network) (st : App.state) (selectedCategories : list string)
    (searchQuery : string) :
  (forall rawData items,
     (fetchJsonRobust net).2 = Ok rawData ->
     findArrayInObject rawData = Some items ->
     Forall well_typed items) ->
  Forall (fun p => is_text (Product.product p) = true /\ is_text (Product.name p) = true)
    (App.products (App.initDataFetch net st))
  /\ exists shown_ids,
       App.visibleProductIds (App.products (App.initDataFetch net st))
         selectedCategories searchQuery
       = Ok shown_ids.
Proof.
  intros Hwt.
  assert (App.products (App.initDataFetch net st) = emitted (fetchPolymakerData net).1)
    as ->.
  { unfold App.initDataFetch. rewrite fold_handle_products. cbn [App.products].
    apply (fold_addProduct_distinct _ []).
    rewrite run_emitted. destruct (fetchJsonRobust net).2 as [rawData|]; [|constructor].
    destruct (findArrayInObject rawData) as [items|]; [|constructor].
    apply (loop_ids items initial). }
  assert (Forall (fun p => is_text (Product.product p) = true
                           /\ is_text (Product.name p) = true)
            (emitted (fetchPolymakerData net).1)) as Htext.
  { apply List.Forall_forall. intros p Hp. rewrite run_emitted in Hp.
    destruct (fetchJsonRobust net).2 as [rawData|]; [|contradiction].
    specialize (Hwt rawData).
    destruct (findArrayInObject rawData) as [items|]; [|contradiction].
    specialize (Hwt items eq_refl eq_refl).
    destruct (loop_emitted_from items initial p Hp) as (item & Hitem & He).
    rewrite List.Forall_forall in Hwt. exact (well_typed_texts item p (Hwt item Hitem) He). }
  split; [exact Htext|].
  unfold App.visibleProductIds.
  destruct (length selectedCategories =? 0)%nat; [eauto|].
  rewrite (filter_with_Ok _
             (fun p => contains selectedCategories (Product.category p)
                       && matches (trim (toLowerCase searchQuery)) p)).
  - eauto.
  - eapply List.Forall_impl; [|exact Htext]. intros p [Hp Hn]. apply shown_text; assumption.
Qed.

(** The statement on a response of three records with texts, and the search
    for "red" among the category "Other". *)
Lemma search_is_safe_after_loading_texts_witness :
  Forall (fun p => is_text (Product.product p) = true /\ is_text (Product.name p) = true)
    (App.products
       (App.initDataFetch (direct_only (JArr [red_record; red_again; colourless_record]))
          App.start))
  /\ exists shown_ids,
       App.visibleProductIds
         (App.products
            (App.initDataFetch (direct_only (JArr [red_record; red_again; colourless_record]))
               App.start))
         ["Other"%string] "red"
       = Ok shown_ids.
Proof.
  apply (search_is_safe_after_loading_texts
           (direct_only (JArr [red_record; red_again; colourless_record])) App.start
           ["Other"%string] "red").
  intros rawData items H1 H2. simpl in H1. inversion H1; subst. simpl in H2.
  inversion H2; subst.
  repeat (apply List.Forall_cons;
          [intros k Hk; simpl in Hk;
           repeat (destruct Hk as [<-|Hk]; [reflexivity|]); contradiction|]).
  apply List.Forall_nil.
Defined.


Lemma shown_ext sel sel' query p :
  (forall c, In c sel <-> In c sel') -> App.shown sel query p = App.shown sel' query p.
Proof.
  intros H. unfold App.shown.
  assert (contains sel (Product.category p) = contains sel' (Product.category p)) as ->;
    [|reflexivity].
  apply eq_true_iff_eq. rewrite !contains_In. apply H.
Qed.

Lemma visibleProductIds_ext ps sel sel' q :
  (forall c, In c sel <-> In c sel') ->
  App.visibleProductIds ps sel q = App.visibleProductIds ps sel' q.
Proof.
  intros H. unfold App.visibleProductIds.
  rewrite (filter_with_ext _ (App.shown sel' (trim (toLowerCase q))))
    by (intros p; apply shown_ext, H).
  destruct sel as [|c sel], sel' as [|c' sel']; try reflexivity.
  - exfalso. apply (proj2 (H c')). left. reflexivity.
  - exfalso. apply (proj1 (H c)). left. reflexivity.
Qed.

Lemma toggle_In prev category c :
  In c (App.handleToggleCategory prev category)
  <-> (c = category /\ ~ In category prev) \/ (c <> category /\ In c prev).
Proof.
  unfold App.handleToggleCategory. destruct (contains prev category) eqn:E.
  - apply contains_In in E. rewrite filter_In, negb_true_iff, String.eqb_neq.
    split; [intros [H1 H2]; auto|]. intros [[-> H]|[H1 H2]]; [contradiction|auto].
  - assert (~ In category prev) as Hn by (rewrite <- contains_In; congruence).
    rewrite in_app_iff. simpl. destruct (string_dec c category) as [->|Hc].
    + split; auto.
    + split; [intros [H|[H|[]]]; [auto|congruence]|]. intros [[H _]|[_ H]]; [congruence|auto].
Qed.

(** The category filter.  Toggling a category selects it when it was not
    selected and deselects it when it was, and leaves every other category
    as it was; a selection without repetition stays one; and toggling the
    same category twice brings back the same view, for every catalogue and
    every query. *)
Theorem handleToggleCategory_flips_one_category (prev : list string) (category : string) :
  (In category (App.handleToggleCategory prev category) <-> ~ In category prev)
  /\ (forall c, c <> category ->
        (In c (App.handleToggleCategory prev category) <-> In c prev))
  /\ (List.NoDup prev -> List.NoDup (App.handleToggleCategory prev category))
  /\ (forall products searchQuery,
        App.visibleProductIds products
          (App.handleToggleCategory (App.handleToggleCategory prev category) category)
          searchQuery
        = App.visibleProductIds products prev searchQuery).
Proof.
  split; [|split; [|split]].
  - rewrite toggle_In. tauto.
  - intros c Hc. rewrite toggle_In. tauto.
  - intros Hnd. unfold App.handleToggleCategory.
    destruct (contains prev category) eqn:E.
    + apply List.NoDup_filter, Hnd.
    + apply List.NoDup_app; [exact Hnd|repeat constructor; simpl; tauto|].
      intros x Hx [<-|[]]. apply contains_In in Hx. congruence.
  - intros ps q. apply visibleProductIds_ext. intros c.
    rewrite !toggle_In. destruct (in_dec string_dec category prev).
    all: destruct (string_dec c category) as [->|Hc]; tauto.
Qed.

Lemma count_of_bump c c' counts :
  count_of c (App.bump c' counts)
  = count_of c counts + (if String.eqb c' c then 1 else 0).
Proof.
  induction counts as [|[k n] counts IH]; cbn [App.bump count_of].
  - destruct (String.eqb c' c); reflexivity.
  - destruct (String.eqb_spec k c') as [->|Hk]; cbn [count_of].
    + destruct (String.eqb c' c); [|lia]. destruct (Z.eqb_spec n 0); lia.
    + rewrite IH. destruct (String.eqb k c) eqn:E; [|reflexivity].
      apply String.eqb_eq in E. subst k.
      destruct (String.eqb_spec c' c); [congruence|lia].
Qed.

Lemma total_bump c counts : total (App.bump c counts) = total counts + 1.
Proof.
  induction counts as [|[k n] counts IH]; cbn [App.bump total fold_right snd];
    [reflexivity|].
  destruct (String.eqb k c); cbn [total fold_right snd].
  - destruct (Z.eqb_spec n 0); fold (total counts); lia.
  - fold (total (App.bump c counts)) (total counts). rewrite IH. lia.
Qed.

Lemma fold_bump_counts ps : forall counts,
  (forall c,
     count_of c (fold_left (fun counts p => App.bump (Product.category p) counts) ps counts)
     = count_of c counts + tally c ps)
  /\ total (fold_left (fun counts p => App.bump (Product.category p) counts) ps counts)
     = total counts + Z.of_nat (length ps).
Proof.
  induction ps as [|p ps IH]; intros counts; cbn [fold_left].
  - split; [intros c; unfold tally; simpl|simpl]; lia.
  - destruct (IH (App.bump (Product.category p) counts)) as [Hc Ht]. split.
    + intros c. rewrite Hc, count_of_bump. unfold tally. cbn [List.filter].
      destruct (String.eqb (Product.category p) c); cbn [length]; lia.
    + rewrite Ht, total_bump. cbn [length]. lia.
Qed.

(** The counts of the category list.  The number the count object holds for
    a category is the number of products of that category; its keys are the
    categories that occur, each once; its numbers add up to the size of the
    catalogue; and the list of categories is these keys in ascending order,
    without repetition. *)
Theorem categoryCounts_count_the_catalogue (products : list Product.t) :
  (forall c, count_of c (App.categoryCounts products) = tally c products)
  /\ List.NoDup (List.map fst (App.categoryCounts products))
  /\ (forall c, In c (List.map fst (App.categoryCounts products))
                <-> In c (categories_of products))
  /\ total (App.categoryCounts products) = Z.of_nat (length products)
  /\ ascending (App.uniqueCategories products)
  /\ (forall c, In c (App.uniqueCategories products) <-> In c (categories_of products)).
Proof.
  destruct (fold_bump_counts products []) as [Hc Ht].
  destruct (fold_bump_keys products [] (List.NoDup_nil _)) as [Hnd Hin].
  destruct (uniqueCategories_spec products) as [Ha Hu].
  unfold App.categoryCounts.
  split; [intros c; rewrite Hc; simpl; lia|]. split; [exact Hnd|].
  split; [intros c; rewrite Hin; simpl; tauto|]. split; [rewrite Ht; simpl; lia|].
  split; assumption.
Qed.

Lemma visible_all ps : visible (list_to_set (ids ps)) ps = ps.
Proof.
  unfold visible. apply forallb_filter_id, forallb_forall. intros p Hp.
  apply bool_decide_eq_true, elem_of_list_to_set, list_elem_of_In, in_map, Hp.
Qed.

(** From the response to the picture.  After a load, with a blank search
    box and until the user changes the filter, the nodes of the scene hold
    exactly the entities the run handed over, each in one node, for every
    collation and every threshold: nothing the service accepts is left
    out of the picture, and nothing is drawn twice. *)
Theorem every_loaded_colour_is_drawn_once
    (localeCompare : string -> string -> Z) (clusterThreshold : float)
    (net : Network) (st : App.state) (searchQuery : string) :
  trim (toLowerCase searchQuery) = EmptyString ->
  exists visibleProductIds,
    App.visibleProductIds (App.products (App.initDataFetch net st))
      (App.selectedCategories (App.initDataFetch net st)) searchQuery
    = Ok visibleProductIds
    /\ Permutation
         (members (renderNodes localeCompare (App.products (App.initDataFetch net st))
                     visibleProductIds clusterThreshold))
         (emitted (fetchPolymakerData net).1).
Proof.
  intros Hq.
  assert (App.products (App.initDataFetch net st) = emitted (fetchPolymakerData net).1)
    as Hp.
  { unfold App.initDataFetch. rewrite fold_handle_products. cbn [App.products].
    apply (fold_addProduct_distinct _ []).
    rewrite run_emitted. destruct (fetchJsonRobust net).2 as [rawData|]; [|constructor].
    destruct (findArrayInObject rawData) as [items|]; [|constructor].
    apply (loop_ids items initial). }
  assert (Forall (fun p => In (Product.category p)
                             (App.selectedCategories (App.initDataFetch net st)))
            (App.products (App.initDataFetch net st))) as Hsel.
  { rewrite Hp. apply List.Forall_forall. intros p Hin. unfold App.initDataFetch.
    rewrite fold_handle_selected. apply fold_autoSelect_In. right. apply in_map, Hin. }
  rewrite <- Hp.
  set (ps := App.products (App.initDataFetch net st)) in *. clearbody ps.
  set (sel := App.selectedCategories (App.initDataFetch net st)) in *. clearbody sel.
  exists (list_to_set (ids ps)). split.
  - unfold App.visibleProductIds. rewrite Hq.
    destruct sel as [|c0 sel'] eqn:E.
    + destruct ps as [|p ps']; [reflexivity|]. inversion Hsel as [|? ? []].
    + cbn [length Nat.eqb]. rewrite filter_with_blank; [reflexivity|exact Hsel].
  - rewrite renderNodes_partition, visible_all. reflexivity.
Qed.

(** The statement on the response of two records, with an empty query. *)
Lemma every_loaded_colour_is_drawn_once_witness :
  exists visibleProductIds,
    App.visibleProductIds
      (App.products (App.initDataFetch (direct_only numbered_name_response) App.start))
      (App.selectedCategories
         (App.initDataFetch (direct_only numbered_name_response) App.start))
      EmptyString
    = Ok visibleProductIds
    /\ Permutation
         (members (renderNodes compare_units
                     (App.products
                        (App.initDataFetch (direct_only numbered_name_response) App.start))
                     visibleProductIds 15%float))
         (emitted (fetchPolymakerData (direct_only numbered_name_response)).1).
Proof.
  apply (every_loaded_colour_is_drawn_once compare_units 15%float
           (direct_only numbered_name_response) App.start EmptyString).
  reflexivity.
Defined.

(** ** The level of detail *)

Lemma SFltb_SFleb_trans m e b c :
  SFltb (S754_finite false m e) b = true -> SFleb b c = true ->
  SFltb (S754_finite false m e) c = true.
Proof.
  unfold SFltb, SFleb.
  destruct b as [sb|sb| |sb mb eb], c as [sc|sc| |sc mc ec];
    cbn [SFcompare]; try discriminate;
    repeat match goal with s : bool |- _ => destruct s end; try discriminate;
    try reflexivity.
  change (PosDef.Pos.compare_cont Eq m mb) with (Pos.compare m mb).
  change (PosDef.Pos.compare_cont Eq mb mc) with (Pos.compare mb mc).
  change (PosDef.Pos.compare_cont Eq m mc) with (Pos.compare m mc).
  destruct (Z.compare_spec e eb), (Z.compare_spec eb ec), (Z.compare_spec e ec);
    try discriminate; try reflexivity; try lia;
    destruct (Pos.compare_spec m mb), (Pos.compare_spec mb mc), (Pos.compare_spec m mc);
    try discriminate; try reflexivity; lia.
Qed.

Lemma ltb_leb_trans (c x y : float) m e :
  Prim2SF c = S754_finite false m e ->
  (c <? x)%float = true -> (x <=? y)%float = true -> (c <? y)%float = true.
Proof.
  rewrite !FloatAxioms.ltb_spec, FloatAxioms.leb_spec. intros ->. apply SFltb_SFleb_trans.
Qed.

Lemma eqb_level (level x : float) m e :
  Prim2SF level = S754_finite false m e ->
  (level =? x)%float = true -> x = level.
Proof.
  rewrite FloatAxioms.eqb_spec. intros Hl. rewrite Hl. unfold SFeqb.
  destruct (Prim2SF x) as [s|s| |s mx ex] eqn:Hx; cbn [SFcompare]; try discriminate.
  - destruct s; discriminate.
  - destruct s; [discriminate|].
    change (PosDef.Pos.compare_cont Eq m mx) with (Pos.compare m mx).
    destruct (Z.compare_spec e ex); try discriminate.
    destruct (Pos.compare_spec m mx); try discriminate. intros _. subst.
    apply FloatAxioms.Prim2SF_inj. congruence.
Qed.

Lemma newThreshold_level dist : In (newThreshold dist) levels.
Proof.
  unfold newThreshold, levels.
  destruct (800 <? dist)%float; [simpl; auto|].
  destruct (500 <? dist)%float; [simpl; auto|].
  destruct (300 <? dist)%float; simpl; auto.
Qed.

(** The level of detail.  The threshold of a frame is one of 4, 15, 30 and
    45, and it does not fall when the distance grows: a camera that is not
    nearer never clusters with a smaller threshold.  After a frame in which
    the controls are set the threshold of the scene is the one of the
    distance, whatever it was before: the test before the update saves the
    update and changes nothing. *)
Theorem newThreshold_grows_with_the_distance (nearer farther : float) :
  (nearer <=? farther)%float = true ->
  (newThreshold nearer <=? newThreshold farther)%float = true
  /\ In (newThreshold nearer) levels
  /\ (forall clusterThreshold,
        useFrame (Some nearer) clusterThreshold = newThreshold nearer).
Proof.
  intros Hle. split; [|split; [apply newThreshold_level|]].
  - unfold newThreshold.
    destruct (800 <? nearer)%float eqn:N8.
    { rewrite (ltb_leb_trans 800 nearer farther _ _ eq_refl N8 Hle). reflexivity. }
    destruct (500 <? nearer)%float eqn:N5.
    { rewrite (ltb_leb_trans 500 nearer farther _ _ eq_refl N5 Hle).
      destruct (800 <? farther)%float; reflexivity. }
    destruct (300 <? nearer)%float eqn:N3.
    { rewrite (ltb_leb_trans 300 nearer farther _ _ eq_refl N3 Hle).
      destruct (800 <? farther)%float; [reflexivity|].
      destruct (500 <? farther)%float; reflexivity. }
    destruct (800 <? farther)%float; [reflexivity|].
    destruct (500 <? farther)%float; [reflexivity|].
    destruct (300 <? farther)%float; reflexivity.
  - intros old. unfold useFrame.
    destruct (newThreshold nearer =? old)%float eqn:E; [|reflexivity]. cbn [negb].
    pose proof (newThreshold_level nearer) as Hl. unfold levels in Hl. simpl in Hl.
    destruct Hl as [Hl|[Hl|[Hl|[Hl|[]]]]]; rewrite <- Hl in E |- *;
      refine (eqb_level _ old _ _ _ E); reflexivity.
Qed.

(** The statement at the distances 400 and 900: the thresholds 15 and 45. *)
Lemma newThreshold_grows_with_the_distance_witness :
  (newThreshold 400 <=? newThreshold 900)%float = true
  /\ In (newThreshold 400) levels
  /\ (forall clusterThreshold, useFrame (Some 400%float) clusterThreshold = newThreshold 400).
Proof.
  apply (newThreshold_grows_with_the_distance 400 900). reflexivity.
Defined.

(** ** The nodes of the scene *)

Lemma append_cancel_r : forall a b s : string, (a +:+ s)%string = (b +:+ s)%string -> a = b.
Proof.
  assert (forall (c : ascii) (b s : string), s <> String c (b +:+ s)) as Hneq.
  { intros c b s H. apply (f_equal String.length) in H. simpl in H.
    rewrite length_append in H. lia. }
  induction a as [|c a IH]; intros [|d b] s H; simpl in H.
  - reflexivity.
  - exfalso. exact (Hneq _ _ _ H).
  - exfalso. symmetry in H. exact (Hneq _ _ _ H).
  - inversion H. f_equal. eapply IH. eassumption.
Qed.

Lemma ids_visible_NoDup V ps : List.NoDup (ids ps) -> List.NoDup (ids (visible V ps)).
Proof.
  unfold ids, visible. induction ps as [|p ps IH]; simpl; intros Hnd; [constructor|].
  apply NoDup_cons_iff in Hnd as [Hp Hnd].
  destruct (bool_decide _); simpl; [|auto]. constructor; [|auto].
  intros Hin. apply Hp. apply in_map_iff in Hin as (q & Hq & Hin).
  apply filter_In in Hin as [Hin _]. rewrite <- Hq. apply in_map, Hin.
Qed.

(** The keys of nodes whose members have distinct ids, none of which is
    another followed by "-cluster". *)
Lemma keys_distinct : forall nodes,
  Forall (fun c => Cluster.products c <> []) nodes ->
  List.NoDup (ids (members nodes)) ->
  (forall p q, In p (members nodes) -> In q (members nodes) ->
               Product.id p <> (Product.id q +:+ "-cluster")%string) ->
  exists ks,
    keys nodes = Ok ks /\ List.NoDup ks
    /\ forall k, In k ks ->
         exists p, In p (members nodes)
                   /\ (k = Product.id p \/ k = (Product.id p +:+ "-cluster")%string).
Proof.
  induction nodes as [|node nodes IH]; intros Hne Hnd Hsuffix.
  - exists []. split; [reflexivity|]. split; [constructor|]. intros k [].
  - inversion Hne as [|? ? Hnode Hne']; subst.
    unfold members in *. cbn [flat_map] in *. fold (members nodes) in *.
    unfold ids in Hnd. rewrite map_app in Hnd.
    destruct (IH Hne') as (ks & Hks & Hndks & Hfrom).
    { eapply NoDup_app_remove_l, Hnd. }
    { intros p q Hp Hq. apply Hsuffix; apply in_or_app; right; assumption. }
    cbn [keys]. unfold key. destruct (Cluster.products node) as [|first others] eqn:E;
      [contradiction|].
    cbn [mbind result_bind]. rewrite Hks. cbn [mbind result_bind].
    set (suffix := if (1 <? length (first :: others))%nat then "-cluster"%string
                   else EmptyString).
    eexists. split; [reflexivity|]. split.
    + constructor; [|exact Hndks]. intros Hin.
      destruct (Hfrom _ Hin) as (q & Hq & Hk).
      assert (Product.id first <> Product.id q) as Hdiff.
      { intros Hid. simpl in Hnd. apply NoDup_cons_iff in Hnd as [Hfirst _].
        apply Hfirst, in_or_app. right. rewrite Hid. apply in_map, Hq. }
      assert (In first (first :: others ++ members nodes)) as Hf by (left; reflexivity).
      assert (In q (first :: others ++ members nodes)) as Hq'
        by (right; apply in_or_app; right; exact Hq).
      subst suffix. destruct (1 <? length (first :: others))%nat, Hk as [Hk|Hk].
      * symmetry in Hk. exact (Hsuffix q first Hq' Hf Hk).
      * apply append_cancel_r in Hk. contradiction.
      * rewrite append_empty_r in Hk. contradiction.
      * rewrite append_empty_r in Hk. exact (Hsuffix first q Hf Hq' Hk).
    + intros k [<-|Hk].
      * exists first. split; [left; reflexivity|].
        subst suffix. destruct (1 <? length (first :: others))%nat;
          [right; reflexivity|left; apply append_empty_r].
      * destruct (Hfrom k Hk) as (p & Hp & Hkp). exists p.
        split; [right; apply in_or_app; right; exact Hp|exact Hkp].
Qed.

(** The keys of the nodes.  For products with pairwise distinct ids, none
    of whose visible ids is another visible id followed by "-cluster",
    every node has a key and the keys of the nodes are pairwise
    distinct. *)
Theorem node_keys_are_distinct
    (localeCompare : string -> string -> Z) (allProducts : list Product.t)
    (visibleProductIds : gset string) (clusterThreshold : float) :
  List.NoDup (ids allProducts) ->
  (forall p q, In p (visible visibleProductIds allProducts) ->
               In q (visible visibleProductIds allProducts) ->
               Product.id p <> (Product.id q +:+ "-cluster")%string) ->
  exists ks,
    keys (renderNodes localeCompare allProducts visibleProductIds clusterThreshold) = Ok ks
    /\ List.NoDup ks.
Proof.
  intros Hnd Hsuffix.
  pose proof (renderNodes_partition localeCompare allProducts visibleProductIds
                clusterThreshold) as Hperm.
  destruct (keys_distinct
              (renderNodes localeCompare allProducts visibleProductIds clusterThreshold))
    as (ks & Hks & Hndks & _).
  - unfold renderNodes. apply fold_place_nonempty. constructor.
  - eapply Permutation_NoDup; [apply Permutation_sym, Permutation_map, Hperm|].
    apply ids_visible_NoDup, Hnd.
  - intros p q Hp Hq. apply Hsuffix; eapply Permutation_in; eassumption.
  - exists ks. auto.
Qed.

(** The statement on the scenario of three greys. *)
Lemma node_keys_are_distinct_witness :
  exists ks,
    keys (renderNodes compare_units [light_grey; near_black; black] abc 15%float) = Ok ks
    /\ List.NoDup ks.
Proof.
  apply (node_keys_are_distinct compare_units [light_grey; near_black; black] abc 15%float).
  - distinct_by_computation.
  - intros p q Hp Hq. vm_compute in Hp, Hq.
    destruct Hp as [<-|[<-|[<-|[]]]], Hq as [<-|[<-|[<-|[]]]]; discriminate.
Defined.

(** Without the condition two nodes can have the same key: the node of "a"
    and "b" and the node of "a-cluster". *)
Lemma node_keys_can_collide :
  keys (renderNodes compare_units [keyed_a; keyed_b; keyed_a_cluster] keyed_ids 15%float)
  = Ok ["a-cluster"; "a-cluster"]%string.
Proof. vm_compute. reflexivity. Qed.

Lemma sorted_snoc {A} (R : A -> A -> Prop) (l : list A) (a : A) :
  StronglySorted R l -> Forall (fun x => R x a) l -> StronglySorted R (l ++ [a]).
Proof.
  induction 1 as [|x l Hl IH Hx]; intros Ha; simpl.
  - repeat constructor.
  - inversion Ha as [|? ? Hxa Ha']; subst. constructor; [apply IH, Ha'|].
    apply Forall_app. split; [exact Hx|]. repeat constructor. exact Hxa.
Qed.

Lemma fold_place_in_id_order cmp THRESHOLD items : forall clusters,
  StronglySorted (precedes cmp) items ->
  Forall (in_id_order cmp) clusters ->
  (forall p it, In p (members clusters) -> In it items ->
                cmp (Product.id p) (Product.id (Item.product it)) <= 0) ->
  Forall (in_id_order cmp) (fold_left (place THRESHOLD) items clusters).
Proof.
  induction items as [|it items IH]; intros clusters Hs Hc Hbefore; simpl; [exact Hc|].
  inversion Hs as [|? ? Hs' Hit]; subst. apply IH; [exact Hs'| |].
  - unfold place.
    destruct (fit_cases THRESHOLD it clusters)
      as [[-> _]|(pre & c & post & -> & _ & _ & ->)].
    + apply Forall_app. split; [exact Hc|]. repeat constructor.
    + apply Forall_app in Hc as [Hpre Hc]. inversion Hc as [|? ? Hcc Hpost]; subst.
      apply Forall_app. split; [exact Hpre|]. constructor; [|exact Hpost].
      unfold in_id_order, absorb. cbn [Cluster.products].
      apply sorted_snoc; [exact Hcc|]. apply List.Forall_forall. intros p Hp.
      apply Hbefore; [|left; reflexivity].
      rewrite members_app. apply in_or_app. right. simpl. apply in_or_app. left. exact Hp.
  - intros p it' Hp Hit'.
    apply (Permutation_in _ (place_members THRESHOLD clusters it)) in Hp.
    apply in_app_or in Hp as [Hp|[<-|[]]].
    + apply Hbefore; [exact Hp|right; exact Hit'].
    + rewrite List.Forall_forall in Hit. exact (Hit it' Hit').
Qed.

(** Inside a node.  For a consistent collation the members of every node
    are in the order of their ids: the first member, whose id makes the key
    of the node and identifies it while it is hovered, is the member that
    the collation puts first. *)
Theorem members_of_a_node_are_in_id_order
    (localeCompare : string -> string -> Z) (allProducts : list Product.t)
    (visibleProductIds : gset string) (clusterThreshold : float) :
  consistent localeCompare ->
  Forall (in_id_order localeCompare)
    (renderNodes localeCompare allProducts visibleProductIds clusterThreshold).
Proof.
  intros Hcons. unfold renderNodes. apply fold_place_in_id_order.
  - apply sort_sorted, Hcons.
  - constructor.
  - intros p it [].
Qed.

(** The statement on the scenario of three greys, supplied out of order. *)
Lemma members_of_a_node_are_in_id_order_witness :
  Forall (in_id_order compare_units)
    (renderNodes compare_units [light_grey; near_black; black] abc 15%float).
Proof.
  apply (members_of_a_node_are_in_id_order compare_units [light_grey; near_black; black]
           abc 15%float).
  exact compare_units_consistent.
Defined.

(** ** The colour of a node and the case of the digits *)

Lemma sum_squares_perm channel ps ps' :
  Permutation ps ps' -> sum_squares channel ps = sum_squares channel ps'.
Proof.
  unfold sum_squares. induction 1; simpl; lia.
Qed.

Lemma displayColor_several p q ps :
  displayColor (p :: q :: ps)
  = rgb_text (root_mean_square red (p :: q :: ps)) (root_mean_square green (p :: q :: ps))
      (root_mean_square blue (p :: q :: ps)).
Proof.
  unfold displayColor. rewrite fold_add_squares. reflexivity.
Qed.

(** The colour of a node does not depend on the order of its members. *)
Theorem displayColor_ignores_the_order (products products' : list Product.t) :
  Permutation products products' -> displayColor products = displayColor products'.
Proof.
  intros Hperm. pose proof (Permutation_length Hperm) as Hlen.
  destruct products as [|p [|q ps]], products' as [|p' [|q' ps']]; try discriminate.
  - reflexivity.
  - apply Permutation_length_1 in Hperm. subst. reflexivity.
  - rewrite !displayColor_several. unfold root_mean_square.
    rewrite !(sum_squares_perm _ _ _ Hperm), Hlen. reflexivity.
Qed.

(** The statement on red and green: "rgb(180,180,0)" in both orders. *)
Lemma displayColor_ignores_the_order_witness :
  displayColor [entry "a" "#ff0000"; entry "b" "#00ff00"]
  = displayColor [entry "b" "#00ff00"; entry "a" "#ff0000"].
Proof.
  apply (displayColor_ignores_the_order [entry "a" "#ff0000"; entry "b" "#00ff00"]
           [entry "b" "#00ff00"; entry "a" "#ff0000"]).
  apply perm_swap.
Defined.



Section CaseOfDigits.

(** A change of case: it keeps the hexadecimal digits, their values and the
    "#". *)
Variable f : ascii -> ascii.
Hypothesis f_digit : forall c, is_hex_digit (f c) = is_hex_digit c.
Hypothesis f_value : forall c, hex_value (f c) = hex_value c.
Hypothesis f_hash : forall c, Ascii.eqb (f c) "#" = Ascii.eqb c "#".










End CaseOfDigits.

